(** * ProtocolLLM: code extraction, prompt dispatch and metrics aggregation

    A shallow embedding of the pure parts of [convert.py], [prompt.py] and
    [rpt.py], and the properties the specification states about them.

    Python strings are sequences of Unicode code points: a character is an
    [N], a string a [list N].  Regular expressions are run by a backtracking
    matcher with the priorities of Python's [re] (greedy and lazy repetition,
    optional groups, one capture group, leftmost search). *)

From Stdlib Require Import NArith ZArith List Ascii String Bool Lia.
From Stdlib Require Import PrimFloat Uint63 Floats.
From stdpp Require Import base option list gmap strings pretty.

Set Default Proof Using "Type".

(* ================================================================== *)
(** * Python strings *)
(* ================================================================== *)

Module Py.

Abbreviation str := (list N).

(** A string literal of the source, as code points. *)
Fixpoint u (s : string) : str :=
  match s with
  | EmptyString => []
  | String a s' => N_of_ascii a :: u s'
  end.

Definition LF : N := 10%N.
Definition BACKTICK : N := 96%N.
Definition UNDERSCORE : N := 95%N.
Definition SLASH : N := 47%N.

(** [str.isspace] on one character, which is also the [\s] of [re] on
    [str] patterns: the ASCII table of CPython ([\t\n\v\f\r], the separators
    [0x1c]-[0x1f], the blank) and the Unicode white space above it. *)
Definition isspace (c : N) : bool :=
  ((9 <=? c) && (c <=? 13) || (28 <=? c) && (c <=? 32)
   || (c =? 133) || (c =? 160) || (c =? 5760)
   || (8192 <=? c) && (c <=? 8202)
   || (c =? 8232) || (c =? 8233) || (c =? 8239) || (c =? 8287)
   || (c =? 12288))%N.

Definition isdigit_ascii (c : N) : bool := ((48 <=? c) && (c <=? 57))%N.

Definition isalnum_ascii (c : N) : bool :=
  (isdigit_ascii c || (65 <=? c) && (c <=? 90) || (97 <=? c) && (c <=? 122))%N.

(** [s.startswith(p)] *)
Fixpoint startswith (p s : str) : bool :=
  match p, s with
  | [], _ => true
  | _ :: _, [] => false
  | a :: p', b :: s' => (a =? b)%N && startswith p' s'
  end.

(** [s.endswith(p)] *)
Definition endswith (p s : str) : bool := startswith (rev p) (rev s).

(** [sub in s] *)
Fixpoint contains (sub s : str) : bool :=
  startswith sub s ||
  match s with
  | [] => false
  | _ :: s' => contains sub s'
  end.

(** [s.find(sub)]; [None] stands for the [-1] of Python. *)
Fixpoint find (sub s : str) : option nat :=
  if startswith sub s then Some 0
  else match s with
       | [] => None
       | _ :: s' => S <$> find sub s'
       end.

Fixpoint lstrip_by (p : N -> bool) (s : str) : str :=
  match s with
  | [] => []
  | c :: s' => if p c then lstrip_by p s' else s
  end.

Definition rstrip_by (p : N -> bool) (s : str) : str :=
  rev (lstrip_by p (rev s)).

(** [s.strip()] *)
Definition strip (s : str) : str := rstrip_by isspace (lstrip_by isspace s).

(** [s.lstrip(c)] for a one-character argument *)
Definition lstrip_char (c : N) (s : str) : str := lstrip_by (N.eqb c) s.

(** [s.split(c)] for a one-character separator: the current field is
    collected in [cur]. *)
Fixpoint split_aux (c : N) (cur : str) (s : str) : list str :=
  match s with
  | [] => [rev cur]
  | x :: s' => if (x =? c)%N then rev cur :: split_aux c [] s'
               else split_aux c (x :: cur) s'
  end.

Definition split (c : N) (s : str) : list str := split_aux c [] s.

(** [s.replace(old, new)]: every occurrence, left to right, without
    overlap.  [skip] counts the characters of an occurrence of [old] that
    is being passed over. *)
Fixpoint replace_aux (old new : str) (skip : nat) (s : str) : str :=
  match s with
  | [] => []
  | c :: s' =>
      match skip with
      | S k => replace_aux old new k s'
      | O => if startswith old s
             then new ++ replace_aux old new (Nat.pred (List.length old)) s'
             else c :: replace_aux old new 0 s'
      end
  end.

Definition replace (old new s : str) : str :=
  match old with
  | [] => new ++ flat_map (fun c => c :: new) s
  | _ :: _ => replace_aux old new 0 s
  end.

(** [s.lower()], as far as [find] of a line feed and backticks can see it:
    the ASCII capitals map to their small letters, U+0130 maps to two code
    points (the one lower-casing that changes the length of a string), and
    any other code point keeps its place; its lower case is one code point
    that is neither a line feed nor a backtick. *)
Definition lower_char (c : N) : str :=
  if ((65 <=? c) && (c <=? 90))%N then [(c + 32)%N]
  else if (c =? 304)%N then [105%N; 775%N]
  else [c].

Definition lower (s : str) : str := flat_map lower_char s.

(** [s[:n]] and [s[:-n]] *)
Definition slice_to (n : nat) (s : str) : str := firstn n s.
Definition slice_drop_last (n : nat) (s : str) : str :=
  firstn (List.length s - n) s.

End Py.

(* ================================================================== *)
(** * Regular expressions of [re] *)
(* ================================================================== *)

Module Re.
Import Py.

(** Character classes of the patterns in the source. *)
Inductive cls :=
| Any                 (* [.] under [re.DOTALL] *)
| Space               (* [\s] *)
| Word                (* [\w] *)
| Digit09             (* [[0-9]] *)
| OneOf (cs : str).   (* [[-+]] and the like *)

(** The patterns of the source repeat single characters only. *)
Inductive re :=
| Chars (s : str)        (* a literal *)
| One (c : cls)          (* one character of a class *)
| Star (c : cls)         (* [c*], greedy *)
| Plus (c : cls)         (* [c+], greedy *)
| LazyStar (c : cls)     (* [c*?] *)
| Opt (r : re)           (* [(?:r)?], greedy *)
| Cat (r1 r2 : re)
| Group (r : re).        (* [(r)], the capture group 1 *)

Record match_obj := MatchObj {
  m_start : nat;           (* [m.start()] *)
  group0 : str;            (* [m.group(0)] *)
  group1 : option str      (* [m.group(1)] *)
}.

Section Engine.

(** [str.isalnum] on the code points from 128 on: the alphanumeric property
    of the Unicode database, which is not reproduced here.  Every result
    below holds for any such table. *)
Variable unicode_alnum : N -> bool.

Definition isword (c : N) : bool :=
  if (c <? 128)%N then isalnum_ascii c || (c =? UNDERSCORE)%N
  else unicode_alnum c.

Definition cls_ok (k : cls) (c : N) : bool :=
  match k with
  | Any => true
  | Space => isspace c
  | Word => isword c
  | Digit09 => isdigit_ascii c
  | OneOf cs => existsb (N.eqb c) cs
  end.

Definition drop_prefix (p s : str) : option str :=
  if startswith p s then Some (skipn (List.length p) s) else None.

Section Matcher.
Context {R : Type}.

(** Greedy repetition: take the character when it fits and only give it
    back when the rest of the pattern fails. *)
Fixpoint greedy_star (p : N -> bool) (s : str) (k : str -> option R)
  : option R :=
  match s with
  | c :: s' =>
      if p c then
        match greedy_star p s' k with
        | Some r => Some r
        | None => k s
        end
      else k s
  | [] => k []
  end.

(** Lazy repetition: try the rest of the pattern first. *)
Fixpoint lazy_star (p : N -> bool) (s : str) (k : str -> option R)
  : option R :=
  match k s with
  | Some r => Some r
  | None =>
      match s with
      | c :: s' => if p c then lazy_star p s' k else None
      | [] => None
      end
  end.

(** [run r s g k]: match [r] at the head of [s], the capture being [g] so
    far, and hand what is left to the continuation [k]; the first success
    in the order of Python's backtracking is the answer. *)
Fixpoint run (r : re) (s : str) (g : option str)
    (k : str -> option str -> option R) : option R :=
  match r with
  | Chars l =>
      match drop_prefix l s with
      | Some s' => k s' g
      | None => None
      end
  | One c =>
      match s with
      | x :: s' => if cls_ok c x then k s' g else None
      | [] => None
      end
  | Star c => greedy_star (cls_ok c) s (fun s' => k s' g)
  | Plus c =>
      match s with
      | x :: s' =>
          if cls_ok c x then greedy_star (cls_ok c) s' (fun s'' => k s'' g)
          else None
      | [] => None
      end
  | LazyStar c => lazy_star (cls_ok c) s (fun s' => k s' g)
  | Opt r' =>
      match run r' s g k with
      | Some x => Some x
      | None => k s g
      end
  | Cat r1 r2 => run r1 s g (fun s' g' => run r2 s' g' k)
  | Group r' =>
      run r' s g
        (fun s' _ => k s' (Some (firstn (List.length s - List.length s') s)))
  end.

End Matcher.

(** [re.match]: the pattern at the head of [s]; the result is what is left
    of [s] and the capture. *)
Definition match_here (r : re) (s : str) : option (str * option str) :=
  run r s None (fun s' g => Some (s', g)).

(** [re.search]: the first position, from the left, where the pattern
    matches; [pos] is the position of [s] in the whole string. *)
Fixpoint search_from (r : re) (pos : nat) (s : str) : option match_obj :=
  match match_here r s with
  | Some (s', g) =>
      Some (MatchObj pos (firstn (List.length s - List.length s') s) g)
  | None =>
      match s with
      | [] => None
      | _ :: s' => search_from r (S pos) s'
      end
  end.

Definition search (r : re) (s : str) : option match_obj := search_from r 0 s.

End Engine.

(** [m.group(1)] of a pattern whose group always takes part. *)
Definition grp1 (m : match_obj) : str := default [] (group1 m).

(** The words of a pattern: the usual language of the regular expression,
    against which the matcher is checked below. *)
Fixpoint lang (unicode_alnum : N -> bool) (r : re) (w : str) : Prop :=
  match r with
  | Chars l => w = l
  | One c => exists x, w = [x] /\ cls_ok unicode_alnum c x = true
  | Star c | LazyStar c => Forall (fun x => cls_ok unicode_alnum c x = true) w
  | Plus c => w <> [] /\ Forall (fun x => cls_ok unicode_alnum c x = true) w
  | Opt r' => w = [] \/ lang unicode_alnum r' w
  | Cat r1 r2 =>
      exists w1 w2, w = w1 ++ w2 /\ lang unicode_alnum r1 w1
                    /\ lang unicode_alnum r2 w2
  | Group r' => lang unicode_alnum r' w
  end.

(** [w] occurs in [s]. *)
Definition occurs_in (w s : str) : Prop := exists a b, s = a ++ w ++ b.

End Re.

(* ================================================================== *)
(** * [convert.py]: the code extractor *)
(* ================================================================== *)

Module Convert.
Import Py Re.

Definition FENCE : str := Eval cbv in u "```".
Definition FENCE_SV : str := Eval cbv in u "```systemverilog".
Definition MODULE : str := Eval cbv in u "module".
Definition ENDMODULE : str := Eval cbv in u "endmodule".
Definition LPAREN : str := Eval cbv in u "(".
Definition UNKNOWN_MODULE : str := Eval cbv in u "unknown_module".
Definition ANSWER_ : str := Eval cbv in u "answer_".
Definition DOT_JSON : str := Eval cbv in u ".json".
Definition DOT_SV : str := Eval cbv in u ".sv".
Definition _CODE_ : str := Eval cbv in u "_code_".
(** The messages of lines 33 and 91, before the key and the path. *)
Definition PROCESSING_ : str := Eval cbv in u "Processing ".
Definition SAVED_ : str := Eval cbv in u "Saved ".
(** ['\n```'], the marker [extract_code_until_endmodule] looks for *)
Definition LF_FENCE : str := LF :: FENCE.

(** [r"```systemverilog\s*(.*?)```"] with [re.DOTALL] *)
Definition RE_SV : re :=
  Cat (Chars FENCE_SV)
 (Cat (Star Space)
 (Cat (Group (LazyStar Any))
      (Chars FENCE))).

(** [r"```(?:\w*\n)?(.*?)```"] with [re.DOTALL] *)
Definition RE_FENCE : re :=
  Cat (Chars FENCE)
 (Cat (Opt (Cat (Star Word) (Chars [LF])))
 (Cat (Group (LazyStar Any))
      (Chars FENCE))).

(** [r"module\s+\w+\s*\(.*?endmodule"] with [re.DOTALL] *)
Definition RE_SPAN : re :=
  Cat (Chars MODULE)
 (Cat (Plus Space)
 (Cat (Plus Word)
 (Cat (Star Space)
 (Cat (Chars LPAREN)
 (Cat (LazyStar Any)
      (Chars ENDMODULE)))))).

(** [r"module\s+(\w+)"] *)
Definition RE_NAME : re :=
  Cat (Chars MODULE)
 (Cat (Plus Space)
      (Group (Plus Word))).

(** [os.path.dirname] of [posixpath]: the path up to its last slash,
    without the slashes at its end unless it is made of slashes only. *)
Definition dirname (p : str) : str :=
  let head := rev (lstrip_by (fun c => negb (c =? SLASH)%N) (rev p)) in
  if forallb (N.eqb SLASH) head then head
  else rstrip_by (N.eqb SLASH) head.

(** What the machine answers to lines 33 and 85-91: whether
    [os.makedirs(dir, exist_ok=True)] succeeds for a directory, whether
    [open(path, 'w')] succeeds for a path, whether the encoding of the output
    files takes a text, and whether standard output takes a line.  The
    answers are taken not to change during a run, nor from one run to the
    next.  [os.makedirs('')] raises
    on every machine and is not asked for. *)
Record host := Host {
  can_makedirs : str -> bool;
  can_open : str -> bool;
  can_encode : str -> bool;
  can_print : str -> bool
}.

(** A value of the JSON object: a string, or anything else. *)
Inductive jvalue :=
| JStr (s : str)
| JOther.

(** What [json.load] makes of a file. *)
Inductive json_doc :=
| BadJson                               (* [json.JSONDecodeError] *)
| NotObject                             (* no [items()] *)
| Object (items : list (str * jvalue)). (* the dict, in its order *)

(** One step of [os.walk]: a directory and its files, each with what
    [json.load] makes of it. *)
Record walk_entry := WalkEntry {
  w_root : str;
  w_files : list (str * json_doc)
}.

(** The output files: path to content. *)
Abbreviation fs := (gmap str str).

Section WithUnicode.
Variable unicode_alnum : N -> bool.

(** [extract_module_name], lines 5-10 *)
Definition extract_module_name (code : str) : str :=
  match search unicode_alnum RE_NAME code with
  | Some m => grp1 m
  | None => UNKNOWN_MODULE
  end.

(** [extract_code_until_endmodule], lines 13-18: the position is found in
    the lower-cased string and cuts the string itself. *)
Definition extract_code_until_endmodule (code : str) : str :=
  match find LF_FENCE (lower code) with
  | Some endmodule_pos => strip (slice_to endmodule_pos code)
  | None => strip code
  end.

(** The three strategies of lines 40-50, each the text it extracts when
    its pattern is found in [value]. *)
Definition strategy_sv (value : str) : option str :=
  (fun m => strip (grp1 m)) <$> search unicode_alnum RE_SV value.
Definition strategy_fence (value : str) : option str :=
  (fun m => strip (grp1 m)) <$> search unicode_alnum RE_FENCE value.
Definition strategy_span (value : str) : option str :=
  (fun m => strip (group0 m)) <$> search unicode_alnum RE_SPAN value.

(** Lines 38-50: [code] is assigned by every pattern that is found. *)
Definition extract_code (value : str) : str :=
  let code := [] in
  let code := match strategy_sv value with Some c => c | None => code end in
  let code := match strategy_fence value with Some c => c | None => code end in
  let code := match strategy_span value with Some c => c | None => code end in
  code.

(** The same lines without the first pattern (lines 40-42 left out). *)
Definition extract_code_without_sv (value : str) : str :=
  let code := [] in
  let code := match strategy_fence value with Some c => c | None => code end in
  let code := match strategy_span value with Some c => c | None => code end in
  code.

(** What the specification calls last-match-wins: the result of the last
    strategy of the list that finds something, the empty string when none
    does. *)
Definition last_match_wins (strategies : list (str -> option str))
    (value : str) : str :=
  default [] (last (omap (fun f => f value) strategies)).

(** What it would be with the first match kept. *)
Definition first_match_wins (strategies : list (str -> option str))
    (value : str) : str :=
  default [] (head (omap (fun f => f value) strategies)).

(** Lines 71-79 for one answer: the text written and the name of the
    file it is written to.  [key] starts with [answer_] here, so that
    [key.split('_')[1]] exists. *)
Definition answer_code (value : str) : str :=
  extract_code_until_endmodule (extract_code value).

Definition answer_module (value : str) : str :=
  extract_module_name (answer_code value).

Definition filename_of (module_name key file : str) : str :=
  module_name ++ _CODE_ ++ nth 1 (split UNDERSCORE key) []
    ++ [UNDERSCORE]
    ++ slice_drop_last 5 (List.last (split UNDERSCORE file) [])
    ++ DOT_SV.

(** [os.path.join] of [posixpath], one step: a component that starts with
    a slash replaces what came before. *)
Definition join2 (path b : str) : str :=
  if startswith [SLASH] b then b
  else if match path with [] => true | _ => endswith [SLASH] path end
       then path ++ b
       else path ++ SLASH :: b.

(** Line 82 *)
Definition output_path_of (folder_path output_folder root filename : str)
  : str :=
  join2 (join2 output_folder (lstrip_char SLASH (replace folder_path [] root)))
        filename.

Section Run.
Variables folder_path output_folder : str.

Variable os : host.

(** Lines 32-91, the loop over the items of one file.  Everything is
    inside the [try] of line 28, and whatever raises is caught at line 94:
    the rest of the file is left out.  A line that standard output does
    not take (lines 33, 91), a value that is not a string ([re.search]
    raises [TypeError]), a directory that cannot be made (line 85; the
    empty directory name never can), a file that cannot be opened (line 88)
    and a text that cannot be encoded (line 89) all end the file; the last
    one after the file has been opened, so that it is left empty. *)
Fixpoint process_items (root file : str) (items : list (str * jvalue))
    (out : fs) : fs :=
  match items with
  | [] => out
  | (key, value) :: rest =>
      if negb (can_print os (PROCESSING_ ++ key)) then out
      else if startswith ANSWER_ key then
        match value with
        | JStr v =>
            let code := answer_code v in
            let module_name := extract_module_name code in
            let filename := filename_of module_name key file in
            let output_path :=
              output_path_of folder_path output_folder root filename in
            let dir := dirname output_path in
            if match dir with [] => true | _ => negb (can_makedirs os dir) end
            then out
            else if negb (can_open os output_path) then out
            else if negb (can_encode os code) then <[output_path := []]> out
            else
              let out := <[output_path := code]> out in
              if negb (can_print os (SAVED_ ++ output_path)) then out
              else process_items root file rest out
        | JOther => out
        end
      else process_items root file rest out
  end.

(** Lines 25-95, one file.  The file is taken to open for reading, and the
    messages of lines 93 and 95 to be printed. *)
Definition process_file (root : str) (f : str * json_doc) (out : fs) : fs :=
  if endswith DOT_JSON f.1 then
    match f.2 with
    | Object items => process_items root f.1 items out
    | BadJson | NotObject => out
    end
  else out.

(** [process_json_files], lines 22-95 *)
Definition process_json_files (tree : list walk_entry) (out : fs) : fs :=
  foldl (fun out e => foldl (fun out f => process_file (w_root e) f out)
                            out (w_files e))
        out tree.

End Run.
End WithUnicode.

(** A run seen from the output files: the writes it makes, in order. *)
Definition apply_writes (ws : list (str * str)) (out : fs) : fs :=
  foldl (fun out w => <[w.1 := w.2]> out) out ws.

(** The content a list of writes leaves at a path, if it writes there. *)
Fixpoint last_write (ws : list (str * str)) (p : str) : option str :=
  match ws with
  | [] => None
  | (q, c) :: ws' =>
      match last_write ws' p with
      | Some x => Some x
      | None => if bool_decide (q = p) then Some c else None
      end
  end.

(** The characters of a plain identifier: ASCII letters, digits and the
    underscore. *)
Definition ident_char (c : N) : bool :=
  isalnum_ascii c || (c =? UNDERSCORE)%N.

(** An answer that is one fenced block,
    [```systemverilog\nmodule <name>(<body>endmodule\n```]. *)
Definition fenced_module (name body : str) : str :=
  FENCE_SV ++ [LF] ++ MODULE ++ [32%N] ++ name ++ LPAREN ++ body
    ++ ENDMODULE ++ [LF] ++ FENCE.

Definition FOO : str := Eval cbv in u "foo".
Definition MODULE_FOO : str := Eval cbv in u "module foo".

(** Sample inputs. *)
Definition sample_body : str := Eval cbv in u "input a); assign b = a; ".
Definition sample_key : str := Eval cbv in u "answer_0".
Definition sample_file : str := Eval cbv in u "i2c_easy_gpt4_RAGTrue.json".
Definition sample_plain : str := Eval cbv in u "I cannot help with that.".
(** A generic block first, a systemverilog block after it. *)
Definition sample_two_blocks : str :=
  Eval cbv in
    (u "```verilog" ++ [LF] ++ u "x = 1;" ++ [LF] ++ u "```"
       ++ u " and ```systemverilog  module a; endmodule```").
(** A machine that makes every directory and opens every file, and whose
    encodings take every text without a surrogate code point (UTF-8). *)
Definition no_surrogate (s : str) : bool :=
  forallb (fun c => negb ((55296 <=? c) && (c <=? 57343))%N) s.
Definition sample_host : host :=
  Host (fun _ => true) (fun _ => true) no_surrogate no_surrogate.
Definition sample_tree : list walk_entry :=
  [WalkEntry (u "outputs/i2c/gpt4")
     [(sample_file,
       Object [(u "prompt_0", JStr (u "Write an I2C driver."));
               (sample_key, JStr (fenced_module FOO sample_body))])]].

End Convert.

(* ================================================================== *)
(** * [prompt.py]: the prompt dispatcher *)
(* ================================================================== *)

Module Prompt.
Import Py.

(** The branches of [prompt_gpt], in the order of its [if]/[elif] chain. *)
Inductive backend :=
| Alias         (* lines 95-123, [requests.post] *)
| Gemini        (* lines 125-161 *)
| OpenRouter    (* lines 163-184 *)
| OpenAI        (* lines 187-204 *)
| Claude        (* lines 206-226 *)
| Ollama.       (* lines 228-238 *)

(** Lines 95, 125, 163, 187, 206, 228: the first substring test that
    succeeds chooses the branch; [None] is the [else] of line 241. *)
Definition select_backend (model_name : str) : option backend :=
  if contains (u "alias") model_name then Some Alias
  else if contains (u "gemini") model_name then Some Gemini
  else if contains (u "deepcoder") model_name
          || contains (u "agentica") model_name then Some OpenRouter
  else if contains (u "gpt") model_name
          || contains (u "o3") model_name then Some OpenAI
  else if contains (u "claude") model_name then Some Claude
  else if contains (u "qwen") model_name
          || contains (u "code") model_name
          || contains (u "deepseek") model_name then Some Ollama
  else None.

(** Exceptions, as far as the [except] clauses tell them apart; all are
    instances of [Exception]. *)
Inductive exn_class :=
| ValueError
| OpenAIError        (* [openai.error.OpenAIError] and its subclasses *)
| OtherException.

Record exn := Exn { exn_cls : exn_class; exn_str : str (* [str(e)] *) }.

(** What [requests.post] does for one prompt: it raises, or returns a
    response with its [status_code], what reading
    [response.json()['choices'][0]['message']['content']] gives (which can
    raise too) and its [text]. *)
Inductive http_outcome :=
| PostRaises (e : exn)
| PostReturns (status_code : N) (content : exn + str) (text : str).

(** What the body of a [try] does for one prompt: it raises, or reads this
    text off the response of the SDK. *)
Inductive sdk_outcome :=
| SdkRaises (e : exn)
| SdkReturns (text : str).

(** The services behind the branches: the outcome of the [i]-th request
    of the loop, made for a prompt. *)
Record world := World {
  requests_post : nat -> str -> http_outcome;
  sdk_call : backend -> nat -> str -> sdk_outcome
}.

(** [ans_dict]: a Python dict keeps its keys in the order they were first
    set. *)
Abbreviation dict := (list (str * str)).

Fixpoint dict_set (k v : str) (d : dict) : dict :=
  match d with
  | [] => [(k, v)]
  | (k', v') :: d' =>
      if bool_decide (k = k') then (k', v) :: d'
      else (k', v') :: dict_set k v d'
  end.

Definition dict_keys (d : dict) : list str := d.*1.

Fixpoint dict_get (k : str) (d : dict) : option str :=
  match d with
  | [] => None
  | (k', v) :: d' => if bool_decide (k = k') then Some v else dict_get k d'
  end.

(** [f"prompt_{i}"] and [f"answer_{i}"] *)
Definition prompt_key (i : nat) : str := u "prompt_" ++ u (pretty i).
Definition answer_key (i : nat) : str := u "answer_" ++ u (pretty i).

(** An [except Exception as e] clause that makes the answer of [str(e)]. *)
Definition caught (prefix : string) (o : sdk_outcome) : exn + str :=
  match o with
  | SdkRaises e => inr (u prefix ++ exn_str e)
  | SdkReturns a => inr a
  end.

(** The body of the loop up to the two assignments to [ans_dict], for one
    prompt: the answer, or the exception that leaves the loop. *)
Definition ask (w : world) (b : backend) (i : nat) (input_prompt : str)
  : exn + str :=
  match b with
  | Alias =>
      (* lines 117-121: no [try] *)
      match requests_post w i input_prompt with
      | PostRaises e => inl e
      | PostReturns status_code content text =>
          if (status_code =? 200)%N then content
          else inr (u "Error: " ++ u (pretty status_code) ++ u " - " ++ text)
      end
  | Gemini => caught "Gemini API Error: " (sdk_call w Gemini i input_prompt)
  | OpenRouter => caught "OpenRouter Error: " (sdk_call w OpenRouter i input_prompt)
  | OpenAI =>
      (* lines 190-201: [except openai.error.OpenAIError] *)
      match sdk_call w OpenAI i input_prompt with
      | SdkRaises e =>
          match exn_cls e with
          | OpenAIError => inr (u "OpenAI Error: " ++ exn_str e)
          | _ => inl e
          end
      | SdkReturns a => inr a
      end
  | Claude => caught "Claude API Error: " (sdk_call w Claude i input_prompt)
  | Ollama =>
      (* line 233: [response.response.strip()] *)
      match sdk_call w Ollama i input_prompt with
      | SdkRaises e => inr (u "Ollama Error: " ++ exn_str e)
      | SdkReturns a => inr (strip a)
      end
  end.

(** The requests made so far: the branch and the prompt of each. *)
Abbreviation trace := (list (backend * str)).

(** [for i, input_prompt in enumerate(prompts)], from index [i] on, with
    [ans_dict] and the requests made so far. *)
Fixpoint ask_all (w : world) (b : backend) (i : nat) (prompts : list str)
    (ans_dict : dict) (sent : trace) : trace * (exn + dict) :=
  match prompts with
  | [] => (sent, inr ans_dict)
  | input_prompt :: rest =>
      let sent := sent ++ [(b, input_prompt)] in
      match ask w b i input_prompt with
      | inl e => (sent, inl e)
      | inr answer =>
          let ans_dict := dict_set (prompt_key i) input_prompt ans_dict in
          let ans_dict := dict_set (answer_key i) answer ans_dict in
          ask_all w b (S i) rest ans_dict sent
      end
  end.

(** [prompt_gpt], lines 76-262: the requests it made, and the dict it
    returns or the exception it raises. *)
Definition prompt_gpt (w : world) (prompts : list str) (model_name : str)
  : trace * (exn + dict) :=
  match select_backend model_name with
  | Some b => ask_all w b 0 prompts [] []
  | None =>
      ([], inl (Exn ValueError (u "Unsupported model name: " ++ model_name)))
  end.

(** The keys a record for [n] prompts is said to have, in their order. *)
Definition expected_keys (n : nat) : list str :=
  flat_map (fun i => [prompt_key i; answer_key i]) (seq 0 n).

(** The substrings the chain of [prompt_gpt] tests for. *)
Definition recognized : list str :=
  [u "alias"; u "gemini"; u "deepcoder"; u "agentica"; u "gpt"; u "o3";
   u "claude"; u "qwen"; u "code"; u "deepseek"].

(** The branches whose [except Exception] catches whatever the request
    raises. *)
Definition catches_all (b : backend) : bool :=
  match b with
  | Gemini | OpenRouter | Claude | Ollama => true
  | Alias | OpenAI => false
  end.

(** Sample worlds: every request is refused at the connection, ... *)
Definition connection_error : exn :=
  Exn OtherException (u "Connection refused").
Definition world_down : world :=
  World (fun _ _ => PostRaises connection_error)
        (fun _ _ _ => SdkRaises connection_error).
(** ... every request is answered with the prompt itself. *)
Definition world_echo : world :=
  World (fun _ p => PostReturns 200 (inr p) p) (fun _ _ p => SdkReturns p).

Definition sample_prompts : list str := [u "first prompt"; u "second prompt"].

End Prompt.

(* ================================================================== *)
(** * [rpt.py]: the metrics aggregator *)
(* ================================================================== *)

Module Rpt.
Import Py Re.

(** The verdict symbols and the sentinel. *)
Definition PASS : str := [10003%N].     (* U+2713, check mark *)
Definition WARN : str := [9888%N].      (* U+26A0, warning sign *)
Definition FAIL : str := [10007%N].     (* U+2717, ballot x *)
Definition NA : str := Eval cbv in u "N/A".
(** ["µm²"]: U+00B5, [m], U+00B2 *)
Definition UM2 : str := [181%N; 109%N; 178%N].

(** The dict of [parse_metrics]; its keys are fixed. *)
Record metrics := Metrics {
  File : str;
  Protocol : str;
  LLM : str;
  RAG : str;
  Lint : str;
  Synthesis : str;
  Timing : str;
  Power : str;      (* ["Power (W)"] *)
  Area : str        (* ["Area (µm²)"] *)
}.

Definition set_Lint (v : str) (m : metrics) : metrics :=
  Metrics (File m) (Protocol m) (LLM m) (RAG m) v (Synthesis m) (Timing m)
          (Power m) (Area m).
Definition set_Synthesis (v : str) (m : metrics) : metrics :=
  Metrics (File m) (Protocol m) (LLM m) (RAG m) (Lint m) v (Timing m)
          (Power m) (Area m).
Definition set_Timing (v : str) (m : metrics) : metrics :=
  Metrics (File m) (Protocol m) (LLM m) (RAG m) (Lint m) (Synthesis m) v
          (Power m) (Area m).
Definition set_Power (v : str) (m : metrics) : metrics :=
  Metrics (File m) (Protocol m) (LLM m) (RAG m) (Lint m) (Synthesis m)
          (Timing m) v (Area m).
Definition set_Area (v : str) (m : metrics) : metrics :=
  Metrics (File m) (Protocol m) (LLM m) (RAG m) (Lint m) (Synthesis m)
          (Timing m) (Power m) v.

(** [r'([0-9]+\.[0-9]+e[-+][0-9]+)'] *)
Definition RE_POWER : re :=
  Group (Cat (Plus Digit09)
        (Cat (Chars (u "."))
        (Cat (Plus Digit09)
        (Cat (Chars (u "e"))
        (Cat (One (OneOf (u "-+")))
             (Plus Digit09)))))).

(** [r'([0-9]+)\s*µm²'] *)
Definition RE_AREA : re :=
  Cat (Group (Plus Digit09))
 (Cat (Star Space)
      (Chars UM2)).

(** The patterns have no [\w]: any table does. *)
Definition search0 : re -> str -> option match_obj := search (fun _ => false).

(** Lines 28-54, the body of the loop for one line of the file *)
Definition parse_line (line : str) (m : metrics) : metrics :=
  let line := strip line in
  let m :=
    if contains (u "No lint errors") line then set_Lint PASS m
    else if contains (u "Lint warnings found") line then set_Lint WARN m
    else if contains (u "Verilator") line && contains (u "ERROR") line
         then set_Lint FAIL m
    else m in
  let m :=
    if contains (u "No synthesis errors") line then set_Synthesis PASS m
    else if contains (u "Synthesis errors found") line
         then set_Synthesis FAIL m
    else m in
  let m :=
    if contains (u "Timing Met: YES") line then set_Timing PASS m
    else if contains (u "Timing Met: NO") line
            || contains (u "Timing Not Met") line then set_Timing FAIL m
    else m in
  let m :=
    if contains (u "Total Power") line then
      match search0 RE_POWER line with
      | Some mo => set_Power (grp1 mo) m
      | None => m
      end
    else m in
  let m :=
    if contains (u "Chip Area") line then
      match search0 RE_AREA line with
      | Some mo => set_Area (grp1 mo) m
      | None => m
      end
    else m in
  m.

(** Reading a text file: [\r\n] and [\r] become [\n] ... *)
Fixpoint universal_newlines (after_cr : bool) (s : str) : str :=
  match s with
  | [] => []
  | c :: s' =>
      if (c =? 13)%N then LF :: universal_newlines true s'
      else if (c =? LF)%N && after_cr then universal_newlines false s'
      else c :: universal_newlines false s'
  end.

(** ... and [for line in f] gives the lines, each with its line feed. *)
Fixpoint lines_aux (cur : str) (s : str) : list str :=
  match s with
  | [] => match cur with [] => [] | _ => [rev cur] end
  | c :: s' =>
      if (c =? LF)%N then rev (c :: cur) :: lines_aux [] s'
      else lines_aux (c :: cur) s'
  end.

Definition file_lines (content : str) : list str :=
  lines_aux [] (universal_newlines false content).

(** [os.path.basename] of [posixpath] *)
Definition basename (path : str) : str :=
  List.last (split SLASH path) [].

(** Lines 6-21: the record before the file is read *)
Definition initial_metrics (metrics_path protocol llm : str) : metrics :=
  let file := replace (u "_metrics.txt") [] (basename metrics_path) in
  let rag :=
    if contains (u "RAGTrue") file then u "True"
    else if contains (u "RAGFalse") file then u "False"
    else u "Unknown" in
  Metrics file protocol llm rag NA NA NA NA NA.

(** Lines 26-54 on the lines of the file *)
Definition parse_lines (lines : list str) (m : metrics) : metrics :=
  foldl (fun m line => parse_line line m) m lines.

(** [parse_metrics], lines 5-56; [file] is the text at [metrics_path],
    [None] when there is no such file. *)
Definition parse_metrics (file : option str)
    (metrics_path protocol llm : str) : metrics :=
  let m := initial_metrics metrics_path protocol llm in
  match file with
  | None => m
  | Some content => parse_lines (file_lines content) m
  end.

(** ** The summary, lines 76-97 *)

(** Lines 78-80: the three boolean columns *)
Definition lint_pass (m : metrics) : bool :=
  bool_decide (Lint m = PASS) || bool_decide (Lint m = WARN).
Definition synth_pass (m : metrics) : bool := bool_decide (Synthesis m = PASS).
Definition timing_pass (m : metrics) : bool := bool_decide (Timing m = PASS).

(** The key of [groupby], line 84 *)
Definition key_of (m : metrics) : str * str * str := (LLM m, RAG m, Protocol m).

(** The order of Python strings: by code point, a prefix first. *)
Fixpoint str_compare (a b : str) : comparison :=
  match a, b with
  | [], [] => Eq
  | [], _ :: _ => Lt
  | _ :: _, [] => Gt
  | x :: a', y :: b' =>
      match (x ?= y)%N with
      | Eq => str_compare a' b'
      | c => c
      end
  end.

Definition key_compare (k1 k2 : str * str * str) : comparison :=
  match str_compare k1.1.1 k2.1.1 with
  | Eq => match str_compare k1.1.2 k2.1.2 with
          | Eq => str_compare k1.2 k2.2
          | c => c
          end
  | c => c
  end.

(** The keys of the groups: each once, in increasing order. *)
Fixpoint insert_key (k : str * str * str) (ks : list (str * str * str))
  : list (str * str * str) :=
  match ks with
  | [] => [k]
  | k' :: ks' =>
      match key_compare k k' with
      | Lt => k :: ks
      | Eq => ks
      | Gt => k' :: insert_key k ks'
      end
  end.

Definition group_keys (all_metrics : list metrics) : list (str * str * str) :=
  foldr (fun m ks => insert_key (key_of m) ks) [] all_metrics.

Definition group_of (k : str * str * str) (all_metrics : list metrics)
  : list metrics :=
  List.filter (fun m => bool_decide (key_of m = k)) all_metrics.

(** Binary64 arithmetic of the columns. *)
Definition float_of_nat (n : nat) : float :=
  PrimFloat.of_uint63 (Uint63.of_Z (Z.of_nat n)).

Definition count_true (f : metrics -> bool) (g : list metrics) : nat :=
  List.length (List.filter f g).

(** The mean of a boolean column: the number of [True] over the number of
    rows, both exact in binary64. *)
Definition bool_mean (f : metrics -> bool) (g : list metrics) : float :=
  (float_of_nat (count_true f g) / float_of_nat (List.length g))%float.

(** [rint]: the nearest integer, ties to even, for [0 <= x < 2^52]. *)
Definition two52 : float := 4503599627370496%float.
Definition rint (x : float) : float := ((x + two52) - two52)%float.

(** [.round(1)] of numpy: [rint(x * 10) / 10] *)
Definition round1 (x : float) : float := (rint (x * 10) / 10)%float.

(** Lines 93-95 on a mean *)
Definition pass_rate (f : metrics -> bool) (g : list metrics) : float :=
  round1 (bool_mean f g * 100)%float.

(** A row of [grouped]; the two averages of lines 89-90 need the reading of
    decimal numbers and are left out. *)
Record summary_row := SummaryRow {
  row_key : str * str * str;
  Total_Designs : nat;
  Lint_Pass_Rate : float;
  Synth_Pass_Rate : float;
  Timing_Pass_Rate : float
}.

Definition summarize (k : str * str * str) (g : list metrics) : summary_row :=
  SummaryRow k (List.length g) (pass_rate lint_pass g)
             (pass_rate synth_pass g) (pass_rate timing_pass g).

(** Lines 84-97: one row for each key, in the order of the keys. *)
Definition grouped_summary (all_metrics : list metrics) : list summary_row :=
  map (fun k => summarize k (group_of k all_metrics)) (group_keys all_metrics).

(** [generate_grouped_summary], lines 76-97, up to the table [grouped].
    A frame made of no record has no column ["Lint"], and line 78 raises
    [KeyError]: [None]. *)
Definition generate_grouped_summary (all_metrics : list metrics)
  : option (list summary_row) :=
  match all_metrics with
  | [] => None
  | _ :: _ => Some (grouped_summary all_metrics)
  end.

(** ** The rate against exact arithmetic *)

(** [x] is a percentage of [k] out of [n] rounded to one decimal: the
    binary64 number nearest to [m/10] for an integer [m] that is at most
    one half away from [1000 k / n]. *)
Definition nearest_tenth (k n : nat) (x : float) : Prop :=
  exists m : nat,
    x = (float_of_nat m / 10)%float
    /\ (2 * Z.abs (Z.of_nat m * Z.of_nat n - 1000 * Z.of_nat k)
         <= Z.of_nat n)%Z.

(** Lines 86 and 93 for [k] passing records out of [n], in the primitive
    operations of binary64. *)
Definition rate_of_counts (k n : nat) : float :=
  (((float_of_nat k / float_of_nat n * 100) * 10
      + 4503599627370496 - 4503599627370496) / 10)%float.

(** The same on binary numbers, for the test below. *)
Definition float_of_N (n : N) : float :=
  PrimFloat.of_uint63 (Uint63.of_Z (Z.of_N n)).

Definition rate_of_N (k n : N) : float :=
  (((float_of_N k / float_of_N n * 100) * 10
      + 4503599627370496 - 4503599627370496) / 10)%float.

(** The test that the rate for [k] out of [n] is [m/10], and [m] at most
    one half away from [1000 k / n]. *)
Definition tenth_near (k n m : N) : bool :=
  PrimFloat.Leibniz.eqb (rate_of_N k n) (float_of_N m / 10)%float
  && (2 * Z.abs (Z.of_N m * Z.of_N n - 1000 * Z.of_N k) <=? Z.of_N n)%Z.

(** It is tried for the two integers around [1000 k / n]. *)
Definition rate_checked (k n : N) : bool :=
  let q := (1000 * k / n)%N in
  tenth_near k n q || tenth_near k n (q + 1)%N.

(** [k], [k+1], ..., as many as [fuel]. *)
Fixpoint count_up (fuel : nat) (k : N) : list N :=
  match fuel with
  | O => []
  | S fuel' => k :: count_up fuel' (k + 1)%N
  end.

(** The test for every group of at most [bound] records and every number
    of passing records in it. *)
Definition rates_checked (bound : nat) : bool :=
  forallb (fun n => forallb (fun k => rate_checked k n)
                            (count_up (S (N.to_nat n)) 0%N))
          (count_up bound 1%N).

(** The sizes of groups for which the test is run. *)
Definition checked_bound : nat := 1000.

(** The four lines of the example of the specification. *)
Definition LINE_LINT : str := Eval cbv in u "No lint errors".
Definition LINE_TIMING : str := Eval cbv in u "Timing Met: YES".
Definition LINE_POWER : str := Eval cbv in u "Total Power 1.23e-03".
Definition LINE_AREA : str := Eval cbv in u "Chip Area 4567 " ++ UM2.
Definition four_lines : list str :=
  [LINE_LINT; LINE_TIMING; LINE_POWER; LINE_AREA].

(** The lines of the file, as the loop sees them after [strip]. *)
Definition stripped_lines (content : str) : list str :=
  strip <$> file_lines content.

(** A line that sets none of the four fields to something else: it has
    none of the substrings that give another lint or timing verdict, nor
    the two that announce a number. *)
Definition quiet (line : str) : bool :=
  negb (contains (u "Lint warnings found") line)
  && negb (contains (u "Verilator") line && contains (u "ERROR") line)
  && negb (contains (u "Timing Met: NO") line)
  && negb (contains (u "Timing Not Met") line)
  && negb (contains (u "Total Power") line)
  && negb (contains (u "Chip Area") line).

(** Sample files: the four lines, and the four lines with a lint warning
    after them. *)
Definition join_lines (ls : list str) : str := flat_map (fun l => l ++ [LF]) ls.
Definition sample_report : str := Eval cbv in join_lines four_lines.
Definition sample_report_warned : str :=
  Eval cbv in join_lines (four_lines ++ [u "Lint warnings found"]).
Definition sample_path : str :=
  Eval cbv in u "reports/i2c/gpt4/foo_code_0_RAGTrue_metrics.txt".

Definition sample_record (file lint : str) : metrics :=
  Metrics file (u "i2c") (u "gpt4") (u "True") lint NA NA NA NA.

End Rpt.

(* ================================================================== *)
(** * Facts about the string functions *)
(* ================================================================== *)

Module PyFacts.
Import Py.

Lemma startswith_app (p t : str) : startswith p (p ++ t) = true.
Proof.
  induction p as [|a p IH]; simpl; [done|].
  by rewrite N.eqb_refl, IH.
Qed.

Lemma startswith_inv (p s : str) :
  startswith p s = true -> s = p ++ skipn (List.length p) s.
Proof.
  revert s. induction p as [|a p IH]; intros [|b s]; simpl; try done.
  intros [Hab Hs]%andb_true_iff. apply N.eqb_eq in Hab as ->.
  f_equal. by apply IH.
Qed.

Lemma startswith_iff (p s : str) :
  startswith p s = true <-> exists t, s = p ++ t.
Proof.
  split.
  - intros H. eexists. by apply startswith_inv.
  - intros [t ->]. apply startswith_app.
Qed.

Lemma contains_iff (sub s : str) :
  contains sub s = true <-> exists a b, s = a ++ sub ++ b.
Proof.
  induction s as [|c s IH].
  - simpl. rewrite orb_false_r, startswith_iff. split.
    + intros [t Ht]. by exists [], t.
    + intros (a & b & Hab). symmetry in Hab.
      apply app_eq_nil in Hab as [-> Hab]. exists b. by rewrite Hab.
  - cbn [contains]. rewrite orb_true_iff, IH, startswith_iff. split.
    + intros [[t Ht]|(a & b & Hab)].
      * by exists [], t.
      * exists (c :: a), b. by rewrite Hab.
    + intros ([|x a] & b & Hab).
      * left. by exists b.
      * right. injection Hab as -> ->. by exists a, b.
Qed.

Lemma contains_app_l (sub a b : str) :
  contains sub a = true -> contains sub (a ++ b) = true.
Proof.
  rewrite !contains_iff. intros (x & y & ->).
  exists x, (y ++ b). by rewrite <- !app_assoc.
Qed.

Lemma contains_app_r (sub a b : str) :
  contains sub b = true -> contains sub (a ++ b) = true.
Proof.
  rewrite !contains_iff. intros (x & y & ->).
  exists (a ++ x), y. by rewrite <- !app_assoc.
Qed.

Lemma contains_take (sub s : str) (n : nat) :
  contains sub s = false -> contains sub (take n s) = false.
Proof.
  intros H. destruct (contains sub (take n s)) eqn:E; [|done].
  rewrite <- H, <- (take_drop n s) at 1. symmetry. by apply contains_app_l.
Qed.

Lemma find_None_iff (sub s : str) :
  find sub s = None <-> contains sub s = false.
Proof.
  induction s as [|c s IH]; simpl.
  - destruct (startswith sub []); simpl; split; congruence.
  - destruct (startswith sub (c :: s)); simpl; [split; congruence|].
    rewrite <- IH. destruct (find sub s); simpl; split; congruence.
Qed.

(** [strip] leaves a string alone that neither starts nor ends with white
    space. *)
Lemma lstrip_by_id (p : N -> bool) (c : N) (s : str) :
  p c = false -> lstrip_by p (c :: s) = c :: s.
Proof. intros H. simpl. by rewrite H. Qed.

Lemma strip_id (c d : N) (s : str) :
  isspace c = false -> isspace d = false ->
  strip (c :: s ++ [d]) = c :: s ++ [d].
Proof.
  intros Hc Hd. unfold strip, rstrip_by.
  rewrite lstrip_by_id by done.
  assert (rev (c :: s ++ [d]) = d :: rev (c :: s)) as ->.
  { rewrite app_comm_cons, rev_app_distr. done. }
  rewrite lstrip_by_id by done.
  change (d :: rev (c :: s)) with ([d] ++ rev (c :: s)).
  by rewrite rev_app_distr, rev_involutive.
Qed.

End PyFacts.

(* ================================================================== *)
(** * The matcher against the language of a pattern *)
(* ================================================================== *)

Module ReFacts.
Import Py Re PyFacts.

Abbreviation all_ok p w := (Forall (fun x : N => p x = true) w).

Section Facts.
Variable unicode_alnum : N -> bool.

Abbreviation ok := (cls_ok unicode_alnum).

Lemma drop_prefix_app (p s : str) : drop_prefix p (p ++ s) = Some s.
Proof.
  unfold drop_prefix. rewrite startswith_app.
  by rewrite skipn_app, skipn_all, Nat.sub_diag.
Qed.

Lemma drop_prefix_Some (p s s' : str) :
  drop_prefix p s = Some s' -> s = p ++ s'.
Proof.
  unfold drop_prefix. destruct (startswith p s) eqn:E; [|done].
  intros [= <-]. by apply startswith_inv.
Qed.

Lemma drop_prefix_None (p s : str) :
  startswith p s = false -> drop_prefix p s = None.
Proof. unfold drop_prefix. by intros ->. Qed.

Section Stars.
Context {R : Type}.
Implicit Types (p : N -> bool) (k : str -> option R).

(** What a repetition returns was returned by the continuation after a
    run of fitting characters. *)
Lemma greedy_star_sound p s k r :
  greedy_star p s k = Some r ->
  exists w s', s = w ++ s' /\ all_ok p w /\ k s' = Some r.
Proof.
  induction s as [|c s IH]; simpl.
  - intros H. by exists [], [].
  - destruct (p c) eqn:Hc.
    + destruct (greedy_star p s k) as [r'|] eqn:E.
      * intros [= ->]. destruct (IH eq_refl) as (w & s' & -> & Hw & Hk).
        exists (c :: w), s'. split_and!; [done|by constructor|done].
      * intros H. by exists [], (c :: s).
    + intros H. by exists [], (c :: s).
Qed.

Lemma lazy_star_sound p s k r :
  lazy_star p s k = Some r ->
  exists w s', s = w ++ s' /\ all_ok p w /\ k s' = Some r.
Proof.
  induction s as [|c s IH]; simpl.
  - destruct (k []) eqn:E; [|done]. intros [= ->]. by exists [], [].
  - destruct (k (c :: s)) eqn:E.
    + intros [= ->]. by exists [], (c :: s).
    + destruct (p c) eqn:Hc; [|done]. intros H.
      destruct (IH H) as (w & s' & -> & Hw & Hk).
      exists (c :: w), s'. split_and!; [done|by constructor|done].
Qed.

(** A repetition succeeds as soon as the continuation does after some run
    of fitting characters. *)
Lemma greedy_star_complete p w s' k :
  all_ok p w -> is_Some (k s') -> is_Some (greedy_star p (w ++ s') k).
Proof.
  intros Hw Hk. induction Hw as [|c w Hc Hw IH]; simpl.
  - destruct s' as [|c s']; [done|]. simpl.
    destruct (p c); [|done]. by destruct (greedy_star p s' k).
  - rewrite Hc. destruct IH as [r ->]. by eexists.
Qed.

Lemma lazy_star_complete p w s' k :
  all_ok p w -> is_Some (k s') -> is_Some (lazy_star p (w ++ s') k).
Proof.
  intros Hw Hk. induction Hw as [|c w Hc Hw IH]; simpl.
  - destruct s' as [|c s']; simpl; by destruct Hk as [r ->].
  - destruct (k (c :: w ++ s')); [by eexists|]. by rewrite Hc.
Qed.

(** The greedy repetition takes the whole run when the continuation
    accepts what follows it. *)
Lemma greedy_star_max p w s' k r :
  all_ok p w -> k s' = Some r ->
  match s' with [] => True | c :: _ => p c = false end ->
  greedy_star p (w ++ s') k = Some r.
Proof.
  intros Hw Hk Hs'. induction Hw as [|c w Hc Hw IH]; simpl.
  - destruct s' as [|c s']; [done|]. simpl. by rewrite Hs'.
  - by rewrite Hc, IH.
Qed.

(** The lazy repetition stops at the first place the continuation
    accepts. *)
Lemma lazy_star_first p s k :
  (exists j, j <= List.length s /\ all_ok p (take j s)
             /\ is_Some (k (drop j s))) ->
  exists j r, lazy_star p s k = Some r /\ k (drop j s) = Some r
              /\ j <= List.length s
              /\ forall i, i < j -> k (drop i s) = None.
Proof.
  induction s as [|c s IH]; intros (j & Hj & Hw & Hk).
  - simpl in Hj. assert (j = 0) as -> by lia. simpl in *.
    destruct Hk as [r Hr]. exists 0, r. rewrite Hr.
    split_and!; [done|done|simpl; lia|]. intros i Hi. lia.
  - cbn [lazy_star]. destruct (k (c :: s)) as [r|] eqn:E.
    + exists 0, r. split_and!; [done|done|simpl; lia|]. intros i Hi. lia.
    + destruct j as [|j]; [simpl in Hk; rewrite E in Hk; by destruct Hk|].
      simpl in Hj, Hw, Hk. apply Forall_cons in Hw as [Hc Hw]. rewrite Hc.
      destruct IH as (j' & r & Hl & Hr & Hj' & Hmin).
      { exists j. split_and!; [lia|done|done]. }
      exists (S j'), r. split_and!; [done|done|simpl; lia|].
      intros [|i] Hi; [done|]. simpl. apply Hmin. lia.
Qed.

End Stars.

Abbreviation L := (lang unicode_alnum).

(** Soundness: what [run] returns, the continuation returned after a word
    of the pattern. *)
Lemma run_sound {R : Type} (r : re) :
  forall (s : str) (g : option str) (k : str -> option str -> option R) x,
    run unicode_alnum r s g k = Some x ->
    exists w s' g', s = w ++ s' /\ L r w /\ k s' g' = Some x.
Proof.
  induction r as [l|c|c|c|c|r IH|r1 IH1 r2 IH2|r IH]; intros s g k x; simpl.
  - destruct (drop_prefix l s) as [s'|] eqn:E; [|done]. intros Hk.
    apply drop_prefix_Some in E. by exists l, s', g.
  - destruct s as [|a s]; [done|]. destruct (ok c a) eqn:Ha; [|done].
    intros Hk. exists [a], s, g. split_and!; [done|by exists a|done].
  - intros (w & s' & -> & Hw & Hk)%greedy_star_sound. by exists w, s', g.
  - destruct s as [|a s]; [done|]. destruct (ok c a) eqn:Ha; [|done].
    intros (w & s' & -> & Hw & Hk)%greedy_star_sound.
    exists (a :: w), s', g. split_and!; [done|done|by constructor|done].
  - intros (w & s' & -> & Hw & Hk)%lazy_star_sound. by exists w, s', g.
  - destruct (run unicode_alnum r s g k) as [y|] eqn:E.
    + intros [= ->]. destruct (IH _ _ _ _ E) as (w & s' & g' & -> & Hw & Hk).
      exists w, s', g'. split_and!; [done|by right|done].
    + intros Hk. exists [], s, g. split_and!; [done|by left|done].
  - intros H. destruct (IH1 _ _ _ _ H) as (w1 & s1 & g1 & -> & Hw1 & H2).
    destruct (IH2 _ _ _ _ H2) as (w2 & s2 & g2 & -> & Hw2 & Hk).
    exists (w1 ++ w2), s2, g2. split_and!; [by rewrite app_assoc| |done].
    by exists w1, w2.
  - intros H. destruct (IH _ _ _ _ H) as (w & s' & g' & -> & Hw & Hk).
    by eexists w, s', _.
Qed.

(** Completeness: [run] succeeds on a word of the pattern followed by
    something the continuation accepts. *)
Lemma run_complete {R : Type} (r : re) :
  forall (w s' : str) (g : option str) (k : str -> option str -> option R),
    L r w -> (forall g', is_Some (k s' g')) ->
    is_Some (run unicode_alnum r (w ++ s') g k).
Proof.
  induction r as [l|c|c|c|c|r IH|r1 IH1 r2 IH2|r IH]; intros w s' g k; simpl.
  - intros -> Hk. by rewrite drop_prefix_app.
  - intros (a & -> & Ha) Hk. simpl. by rewrite Ha.
  - intros Hw Hk. by apply greedy_star_complete.
  - intros [Hne Hw] Hk. destruct Hw as [|a w Ha Hw]; [done|]. simpl.
    rewrite Ha. by apply greedy_star_complete.
  - intros Hw Hk. by apply lazy_star_complete.
  - intros [->|Hw] Hk.
    + simpl. by destruct (run unicode_alnum r s' g k).
    + destruct (IH w s' g k Hw Hk) as [y ->]. by eexists.
  - intros (w1 & w2 & -> & Hw1 & Hw2) Hk. rewrite <- app_assoc.
    apply IH1; [done|]. intros g'. by apply IH2.
  - intros Hw Hk. apply IH; [done|]. intros g'. apply Hk.
Qed.

Lemma match_here_sound (r : re) (s s' : str) (g : option str) :
  match_here unicode_alnum r s = Some (s', g) ->
  exists w, s = w ++ s' /\ L r w.
Proof.
  unfold match_here. intros (w & s'' & g' & -> & Hw & [= -> ->])%run_sound.
  by exists w.
Qed.

Lemma match_here_complete (r : re) (w s' : str) :
  L r w -> is_Some (match_here unicode_alnum r (w ++ s')).
Proof. intros Hw. apply run_complete; [done|]. intros g'. by eexists. Qed.

Lemma firstn_sub_app (w s' : str) :
  firstn (List.length (w ++ s') - List.length s') (w ++ s') = w.
Proof.
  rewrite length_app, Nat.add_sub. by rewrite firstn_app, Nat.sub_diag,
    firstn_all, firstn_O, app_nil_r.
Qed.

Lemma match_here_group0 (r : re) (s s' : str) (g : option str) :
  match_here unicode_alnum r s = Some (s', g) ->
  exists w, s = w ++ s' /\ L r w
            /\ firstn (List.length s - List.length s') s = w.
Proof.
  intros (w & -> & Hw)%match_here_sound. exists w.
  by rewrite firstn_sub_app.
Qed.

(** [re.search] finds a word of the pattern in the string ... *)
Lemma search_from_sound (r : re) (s : str) :
  forall pos m, search_from unicode_alnum r pos s = Some m ->
    exists a b, s = a ++ group0 m ++ b /\ L r (group0 m)
                /\ m_start m = pos + List.length a.
Proof.
  induction s as [|c s IH]; intros pos m; cbn [search_from].
  - destruct (match_here unicode_alnum r []) as [[s' g]|] eqn:E; [|done].
    apply match_here_group0 in E as (w & E & Hw & Hf). rewrite Hf.
    intros [= <-]. cbn [group0 m_start].
    exists [], s'. split_and!; [done|done|simpl; lia].
  - destruct (match_here unicode_alnum r (c :: s)) as [[s' g]|] eqn:E.
    + apply match_here_group0 in E as (w & E & Hw & Hf). rewrite Hf.
      intros [= <-]. cbn [group0 m_start].
      exists [], s'. split_and!; [done|done|simpl; lia].
    + intros (a & b & -> & Hw & Hst)%IH. exists (c :: a), b.
      split_and!; [done|done|simpl; lia].
Qed.

(** ... and finds one whenever there is one. *)
Lemma search_from_complete (r : re) (a w b : str) (pos : nat) :
  L r w -> is_Some (search_from unicode_alnum r pos (a ++ w ++ b)).
Proof.
  intros Hw. revert pos. induction a as [|c a IH]; intros pos.
  - simpl. destruct (match_here_complete r w b Hw) as [[s' g] E].
    destruct (w ++ b); cbn [search_from]; rewrite E; by eexists.
  - cbn [app search_from].
    destruct (match_here unicode_alnum r (c :: a ++ w ++ b)) as [[s' g]|];
      [by eexists|]. apply IH.
Qed.

Theorem search_is_Some (r : re) (s : str) :
  is_Some (search unicode_alnum r s) <->
  exists w, L r w /\ occurs_in w s.
Proof.
  split.
  - intros [m (a & b & Hs & Hw & _)%search_from_sound].
    exists (group0 m). split; [done|]. by exists a, b.
  - intros (w & Hw & a & b & ->). by apply search_from_complete.
Qed.

Corollary search_None (r : re) (s : str) :
  (forall w, L r w -> ~ occurs_in w s) -> search unicode_alnum r s = None.
Proof.
  intros H. destruct (search unicode_alnum r s) as [m|] eqn:E; [|done].
  assert (is_Some (search unicode_alnum r s)) as Hs by (by eexists).
  apply search_is_Some in Hs as (w & Hw & Ho). by destruct (H w Hw).
Qed.

(** The match a search returns when no earlier position matches. *)
Lemma search_from_skip (r : re) (a s : str) (pos : nat) :
  (forall j, j < List.length a ->
             match_here unicode_alnum r (drop j (a ++ s)) = None) ->
  search_from unicode_alnum r pos (a ++ s)
  = search_from unicode_alnum r (pos + List.length a) s.
Proof.
  revert pos. induction a as [|c a IH]; intros pos Hnone.
  - simpl. by rewrite Nat.add_0_r.
  - cbn [app search_from].
    assert (match_here unicode_alnum r (c :: a ++ s) = None) as ->.
    { apply (Hnone 0). simpl. lia. }
    rewrite IH; [f_equal; simpl; lia|].
    intros j Hj. apply (Hnone (S j)). simpl. lia.
Qed.

Lemma search_from_here (r : re) (s s' : str) (g : option str) (pos : nat) :
  match_here unicode_alnum r s = Some (s', g) ->
  search_from unicode_alnum r pos s
  = Some (MatchObj pos (firstn (List.length s - List.length s') s) g).
Proof. intros H. destruct s; cbn [search_from]; by rewrite H. Qed.

End Facts.
End ReFacts.

(* ================================================================== *)
(** * The code extractor *)
(* ================================================================== *)

Module ConvertFacts.
Import Py Re PyFacts ReFacts Convert.

Section Facts.
Variable unicode_alnum : N -> bool.

Abbreviation find_re := (search unicode_alnum).

(** A pattern that starts with a literal is not found in a string without
    that literal. *)
Lemma search_literal_None (l : str) (r : re) (s : str) :
  contains l s = false -> find_re (Cat (Chars l) r) s = None.
Proof.
  intros Hno. apply search_None. intros w (w1 & w2 & -> & -> & _) (a & b & Hs).
  assert (contains l s = true) as Hc; [|congruence].
  apply contains_iff. exists a, (w2 ++ b). by rewrite Hs, <- !app_assoc.
Qed.

Lemma contains_FENCE_SV (s : str) :
  contains FENCE s = false -> contains FENCE_SV s = false.
Proof.
  intros Hno. destruct (contains FENCE_SV s) eqn:E; [|done].
  apply contains_iff in E as (a & b & ->). rewrite <- Hno. symmetry.
  apply contains_iff. exists a, (skipn 3 FENCE_SV ++ b). done.
Qed.

Lemma strategies_None (value : str) :
  contains FENCE value = false -> contains MODULE value = false ->
  strategy_sv unicode_alnum value = None
  /\ strategy_fence unicode_alnum value = None
  /\ strategy_span unicode_alnum value = None.
Proof.
  intros Hf Hm. unfold strategy_sv, strategy_fence, strategy_span.
  unfold RE_SV, RE_FENCE, RE_SPAN.
  rewrite !search_literal_None; auto using contains_FENCE_SV.
Qed.

(** Where the first pattern is found, the second is found too. *)
Lemma sv_found_fence_found (value : str) :
  is_Some (find_re RE_SV value) -> is_Some (find_re RE_FENCE value).
Proof.
  rewrite !search_is_Some. intros (w & Hw & Ho). exists w. split; [|done].
  destruct Hw as (w1 & t1 & -> & -> & w2 & t2 & -> & _ & w3 & w4 & -> & _ & ->).
  exists FENCE, (skipn 3 FENCE_SV ++ w2 ++ w3 ++ FENCE).
  split_and!; [done|done|].
  exists [], (skipn 3 FENCE_SV ++ w2 ++ w3 ++ FENCE).
  split_and!; [done|by left|].
  exists (skipn 3 FENCE_SV ++ w2 ++ w3), FENCE.
  split_and!; [by rewrite <- !app_assoc| |done].
  simpl. apply Forall_forall. done.
Qed.


(** ** Identifier characters *)

Lemma ident_char_range (c : N) :
  ident_char c = true ->
  (48 <= c <= 57 \/ 65 <= c <= 90 \/ 97 <= c <= 122 \/ c = 95)%N.
Proof.
  unfold ident_char, isalnum_ascii, isdigit_ascii, UNDERSCORE.
  rewrite !orb_true_iff, !andb_true_iff, !N.leb_le, N.eqb_eq. lia.
Qed.

Lemma ident_char_word (c : N) :
  ident_char c = true -> isword unicode_alnum c = true.
Proof.
  intros H. unfold isword. apply ident_char_range in H as Hr.
  destruct (N.ltb_spec c 128); [done|lia].
Qed.

Lemma ident_char_not_space (c : N) : ident_char c = true -> isspace c = false.
Proof.
  intros Hr%ident_char_range. apply not_true_is_false. unfold isspace.
  rewrite !orb_true_iff, !andb_true_iff, !N.leb_le, !N.eqb_eq. lia.
Qed.

Lemma ident_char_not_tick (c : N) : ident_char c = true -> c <> BACKTICK.
Proof. intros Hr%ident_char_range. unfold BACKTICK. lia. Qed.

Lemma all_ident_word (w : str) :
  all_ok ident_char w -> all_ok (cls_ok unicode_alnum Word) w.
Proof. intros H. eapply Forall_impl; [exact H|]. intros c. apply ident_char_word. Qed.

(** ** The span pattern at a module header *)

(** At [module <name>(] the span pattern matches, up to the first
    [endmodule] after the parenthesis. *)
Lemma span_here (c0 : N) (name' body rest : str) :
  ident_char c0 = true -> all_ok ident_char name' ->
  exists j s', j <= List.length body
    /\ match_here unicode_alnum RE_SPAN
         (MODULE ++ [32%N] ++ (c0 :: name') ++ LPAREN ++ body
            ++ ENDMODULE ++ rest)
       = Some (s', None)
    /\ body ++ ENDMODULE ++ rest = take j body ++ ENDMODULE ++ s'.
Proof.
  intros Hc0 Hname.
  set (k := fun s : str =>
              match drop_prefix ENDMODULE s with
              | Some s' => Some (s', @None str)
              | None => None
              end).
  destruct (lazy_star_first (cls_ok unicode_alnum Any)
              (body ++ ENDMODULE ++ rest) k) as (j & r & Hl & Hr & _ & Hmin).
  { exists (List.length body). split_and!.
    - rewrite length_app. lia.
    - by apply Forall_forall.
    - rewrite drop_app_length. unfold k. rewrite drop_prefix_app. by eexists. }
  assert (j <= List.length body) as Hj.
  { destruct (decide (j <= List.length body)) as [|Hgt]; [done|].
    specialize (Hmin (List.length body) ltac:(lia)).
    rewrite drop_app_length in Hmin. unfold k in Hmin.
    by rewrite drop_prefix_app in Hmin. }
  unfold k in Hr.
  destruct (drop_prefix ENDMODULE (drop j (body ++ ENDMODULE ++ rest)))
    as [s'|] eqn:E; [|done].
  injection Hr as <-. apply drop_prefix_Some in E.
  exists j, s'. split_and!; [done| |].
  - unfold match_here, RE_SPAN. cbn [run].
    rewrite drop_prefix_app. cbn [app].
    change (cls_ok unicode_alnum Space 32) with true. cbn [greedy_star].
    cbn [cls_ok]. rewrite (ident_char_not_space c0 Hc0).
    rewrite (ident_char_word c0 Hc0).
    apply greedy_star_max; [by apply all_ident_word| |done].
    unfold LPAREN at 1. cbn [app greedy_star].
    change (isspace 40) with false. cbn iota.
    change (40%N :: body ++ ENDMODULE ++ rest)
      with (LPAREN ++ body ++ ENDMODULE ++ rest).
    by rewrite drop_prefix_app.
  - rewrite <- (take_drop j (body ++ ENDMODULE ++ rest)) at 1.
    rewrite E. by rewrite take_app_le.
Qed.


(** ** Backticks and fences *)

Abbreviation no_tick w := (Forall (fun c : N => c <> BACKTICK) w).

Lemma startswith_ticks_app (p a b : str) :
  Forall (fun c => c = BACKTICK) p -> no_tick b ->
  startswith p (a ++ b) = startswith p a.
Proof.
  intros Hp Hb. revert a. induction Hp as [|t p -> Hp IH]; intros a.
  - by destruct (a ++ b), a.
  - destruct a as [|y a]; cbn [app startswith].
    + destruct Hb as [|x b Hx Hb]; [done|].
      destruct (N.eqb_spec BACKTICK x); [congruence|done].
    + by rewrite IH.
Qed.

Lemma FENCE_ticks : Forall (fun c => c = BACKTICK) FENCE.
Proof. by repeat constructor. Qed.

Lemma contains_FENCE_no_tick (b : str) : no_tick b -> contains FENCE b = false.
Proof.
  induction 1 as [|c b Hc Hb IH]; [done|].
  cbn [contains]. rewrite IH, orb_false_r. unfold FENCE. cbn [startswith].
  destruct (N.eqb_spec 96 c) as [<-|]; [by destruct Hc|done].
Qed.

Lemma contains_FENCE_app_l (a b : str) :
  no_tick a -> contains FENCE (a ++ b) = contains FENCE b.
Proof.
  induction 1 as [|c a Hc Ha IH]; [done|].
  cbn [app contains]. rewrite IH. unfold FENCE at 1. cbn [startswith].
  destruct (N.eqb_spec 96 c) as [<-|]; [by destruct Hc|done].
Qed.

Lemma contains_FENCE_app_r (a b : str) :
  no_tick b -> contains FENCE (a ++ b) = contains FENCE a.
Proof.
  intros Hb. induction a as [|c a IH].
  - simpl app. by rewrite contains_FENCE_no_tick.
  - cbn [app contains]. rewrite IH. f_equal.
    change (c :: a ++ b) with ((c :: a) ++ b).
    apply startswith_ticks_app; [apply FENCE_ticks|done].
Qed.

Lemma lower_char_cases (c : N) :
  (exists c', lower_char c = [c'] /\ c' <> BACKTICK)
  \/ lower_char c = [105%N; 775%N]
  \/ lower_char c = [c].
Proof.
  unfold lower_char.
  destruct ((65 <=? c) && (c <=? 90))%N eqn:E.
  - left. eexists. split; [done|].
    apply andb_true_iff in E as [?%N.leb_le ?%N.leb_le]. unfold BACKTICK. lia.
  - destruct (c =? 304)%N; auto.
Qed.

Lemma startswith_ticks_lower (p x : str) :
  Forall (fun c => c = BACKTICK) p ->
  startswith p (lower x) = true -> startswith p x = true.
Proof.
  intros Hp. revert x. induction Hp as [|t p -> Hp IH]; intros x; [done|].
  destruct x as [|c x]; [done|]. unfold lower. cbn [flat_map].
  destruct (lower_char_cases c) as [(c' & -> & Hc')|[->| ->]];
    cbn [app startswith].
  - destruct (N.eqb_spec BACKTICK c'); [congruence|done].
  - done.
  - intros [-> Hs]%andb_true_iff. by apply IH.
Qed.

Lemma contains_FENCE_lower (x : str) :
  contains FENCE (lower x) = true -> contains FENCE x = true.
Proof.
  induction x as [|c x IH]; [done|].
  cbn [contains]. intros H. apply orb_true_iff.
  destruct (lower_char_cases c) as [(c' & Hl & Hc')|[Hl|Hl]];
    unfold lower in H; cbn [flat_map] in H; rewrite Hl in H.
  - right. apply IH. cbn [app contains] in H.
    apply orb_true_iff in H as [H|H]; [|done].
    unfold FENCE in H. cbn [startswith] in H.
    destruct (N.eqb_spec 96 c') as [Heq|]; [|done].
    by destruct Hc'.
  - right. apply IH. cbn [app contains] in H.
    by repeat (apply orb_true_iff in H as [H|H]; [done|]).
  - cbn [app contains] in H. apply orb_true_iff in H as [H|H]; [|auto].
    left. apply (startswith_ticks_lower FENCE (c :: x) FENCE_ticks).
    unfold lower. cbn [flat_map]. by rewrite Hl.
Qed.

Lemma contains_LF_FENCE (s : str) :
  contains LF_FENCE s = true -> contains FENCE s = true.
Proof.
  rewrite !contains_iff. intros (a & b & ->). exists (a ++ [LF]), b.
  by rewrite <- app_assoc.
Qed.

(** Text without a fence is not cut by [extract_code_until_endmodule]. *)
Lemma until_endmodule_no_fence (code : str) :
  contains FENCE code = false ->
  extract_code_until_endmodule code = strip code.
Proof.
  intros Hno. unfold extract_code_until_endmodule.
  assert (find LF_FENCE (lower code) = None) as ->; [|done].
  apply find_None_iff. apply not_true_is_false. intros H.
  apply contains_LF_FENCE, contains_FENCE_lower in H. congruence.
Qed.

Lemma strip_id_app (c d : N) (a s b : str) :
  isspace c = false -> isspace d = false ->
  strip ((c :: a) ++ s ++ b ++ [d]) = (c :: a) ++ s ++ b ++ [d].
Proof.
  intros Hc Hd.
  assert ((c :: a) ++ s ++ b ++ [d] = c :: (a ++ s ++ b) ++ [d]) as ->.
  { simpl. by rewrite <- !app_assoc. }
  by apply strip_id.
Qed.


(** ** A fenced module *)

Lemma ident_no_tick (w : str) : all_ok ident_char w -> no_tick w.
Proof.
  intros H. eapply Forall_impl; [exact H|]. intros c. apply ident_char_not_tick.
Qed.

Lemma strip_module_span (mid : str) :
  strip (MODULE ++ mid ++ ENDMODULE) = MODULE ++ mid ++ ENDMODULE.
Proof.
  change MODULE with (109%N :: skipn 1 MODULE).
  change ENDMODULE with (firstn 8 ENDMODULE ++ [101%N]).
  by apply strip_id_app.
Qed.

Lemma app_assoc5 (a b c d e f : str) :
  a ++ b ++ c ++ d ++ e ++ f = a ++ (b ++ c ++ d ++ e) ++ f.
Proof. by rewrite <- !app_assoc. Qed.

(** In a fenced module the span pattern is found at the header, and what
    it extracts ends at the first [endmodule] after the parenthesis. *)
Lemma span_fenced (c0 : N) (name' body : str) :
  ident_char c0 = true -> all_ok ident_char name' ->
  exists j, j <= List.length body
    /\ strategy_span unicode_alnum (fenced_module (c0 :: name') body)
       = Some (MODULE ++ [32%N] ++ (c0 :: name') ++ LPAREN
                 ++ take j body ++ ENDMODULE).
Proof.
  intros Hc0 Hname.
  destruct (span_here c0 name' body ([LF] ++ FENCE) Hc0 Hname)
    as (j & s' & Hj & Hm & Hs).
  exists j. split; [done|].
  unfold strategy_span, search, fenced_module.
  rewrite (app_assoc FENCE_SV [LF]).
  rewrite search_from_skip.
  2:{ intros i Hi.
      do 17 (destruct i as [|i]; [reflexivity|]). simpl in Hi. lia. }
  erewrite search_from_here by exact Hm.
  cbn [fmap option_fmap option_map group0]. f_equal.
  rewrite Hs.
  assert (MODULE ++ [32%N] ++ (c0 :: name') ++ LPAREN
            ++ take j body ++ ENDMODULE ++ s'
          = (MODULE ++ [32%N] ++ (c0 :: name') ++ LPAREN
               ++ take j body ++ ENDMODULE) ++ s') as ->.
  { by rewrite <- !app_assoc. }
  rewrite firstn_sub_app.
  rewrite (app_assoc5 MODULE). apply strip_module_span.
Qed.

(** The name pattern at a module header gives the identifier. *)
Lemma name_at_header (c0 : N) (name' rest : str) :
  ident_char c0 = true -> all_ok ident_char name' ->
  extract_module_name unicode_alnum
    (MODULE ++ [32%N] ++ (c0 :: name') ++ LPAREN ++ rest) = c0 :: name'.
Proof.
  intros Hc0 Hname. unfold extract_module_name, search.
  assert (match_here unicode_alnum RE_NAME
            (MODULE ++ [32%N] ++ (c0 :: name') ++ LPAREN ++ rest)
          = Some (LPAREN ++ rest, Some (c0 :: name'))) as Hm.
  { unfold match_here, RE_NAME. cbn [run].
    rewrite drop_prefix_app. cbn [app].
    change (cls_ok unicode_alnum Space 32) with true. cbn [greedy_star].
    cbn [cls_ok]. rewrite (ident_char_not_space c0 Hc0).
    rewrite (ident_char_word c0 Hc0).
    apply greedy_star_max; [by apply all_ident_word| |done].
    do 3 f_equal.
    change (c0 :: name' ++ LPAREN ++ rest)
      with ((c0 :: name') ++ LPAREN ++ rest).
    by rewrite firstn_sub_app. }
  by rewrite (search_from_here _ _ _ _ _ 0 Hm).
Qed.

(** What is written for a fenced module, and under which name. *)
Lemma fenced_module_extracted (name body : str) :
  name <> [] -> all_ok ident_char name -> contains FENCE body = false ->
  exists j, j <= List.length body
    /\ answer_code unicode_alnum (fenced_module name body)
       = MODULE ++ [32%N] ++ name ++ LPAREN ++ take j body ++ ENDMODULE
    /\ answer_module unicode_alnum (fenced_module name body) = name.
Proof.
  intros Hne Hname Hbody. destruct Hname as [|c0 name' Hc0 Hname]; [done|].
  destruct (span_fenced c0 name' body Hc0 Hname) as (j & Hj & Hspan).
  exists j. split; [done|].
  assert (extract_code unicode_alnum (fenced_module (c0 :: name') body)
          = MODULE ++ [32%N] ++ (c0 :: name') ++ LPAREN
              ++ take j body ++ ENDMODULE) as Hcode.
  { unfold extract_code. by rewrite Hspan. }
  assert (contains FENCE (MODULE ++ [32%N] ++ (c0 :: name') ++ LPAREN
                            ++ take j body ++ ENDMODULE) = false) as Hfree.
  { rewrite !app_assoc, contains_FENCE_app_r by (by repeat constructor).
    rewrite <- !app_assoc.
    rewrite (contains_FENCE_app_l MODULE) by (by repeat constructor).
    rewrite (contains_FENCE_app_l [32%N]) by (by repeat constructor).
    rewrite (contains_FENCE_app_l (c0 :: name'))
      by (apply ident_no_tick; by constructor).
    rewrite (contains_FENCE_app_l LPAREN) by (by repeat constructor).
    by apply contains_take. }
  assert (answer_code unicode_alnum (fenced_module (c0 :: name') body)
          = MODULE ++ [32%N] ++ (c0 :: name') ++ LPAREN
              ++ take j body ++ ENDMODULE) as Hans.
  { unfold answer_code. rewrite Hcode.
    rewrite until_endmodule_no_fence by done.
    rewrite (app_assoc5 MODULE). apply strip_module_span. }
  split; [done|].
  unfold answer_module. rewrite Hans. by apply name_at_header.
Qed.


(** ** The run as a list of writes *)

Lemma lookup_apply_writes (ws : list (str * str)) (out : fs) (p : str) :
  apply_writes ws out !! p
  = match last_write ws p with Some x => Some x | None => out !! p end.
Proof.
  revert out. induction ws as [|[q c] ws IH]; intros out; [done|].
  unfold apply_writes in *. cbn [foldl last_write]. rewrite IH.
  destruct (last_write ws p); [done|]. cbn [fst snd].
  case_bool_decide as Hq.
  - subst q. by rewrite lookup_insert_eq.
  - by rewrite lookup_insert_ne.
Qed.

Lemma apply_writes_idem (ws : list (str * str)) (out : fs) :
  apply_writes ws (apply_writes ws out) = apply_writes ws out.
Proof.
  apply map_eq. intros p. rewrite !lookup_apply_writes.
  by destruct (last_write ws p).
Qed.

Lemma apply_writes_app (ws1 ws2 : list (str * str)) (out : fs) :
  apply_writes (ws1 ++ ws2) out = apply_writes ws2 (apply_writes ws1 out).
Proof. unfold apply_writes. by rewrite foldl_app. Qed.

Lemma foldl_writes {A : Type} (f : fs -> A -> fs) (l : list A) :
  (forall a, exists ws, forall out, f out a = apply_writes ws out) ->
  exists ws, forall out, foldl f out l = apply_writes ws out.
Proof.
  intros Hf. induction l as [|a l [wsl IH]].
  - by exists [].
  - destruct (Hf a) as [wsa Ha]. exists (wsa ++ wsl). intros out.
    cbn [foldl]. by rewrite apply_writes_app, IH, Ha.
Qed.

Section Run.
Variables folder_path output_folder : str.
Variable os : host.

Abbreviation items_of :=
  (process_items unicode_alnum folder_path output_folder os).
Abbreviation file_of :=
  (process_file unicode_alnum folder_path output_folder os).
Abbreviation run_of :=
  (process_json_files unicode_alnum folder_path output_folder os).

Lemma process_items_writes (root file : str) (items : list (str * jvalue)) :
  exists ws, forall out, items_of root file items out = apply_writes ws out.
Proof.
  induction items as [|[key value] items [ws IH]]; [by exists []|].
  cbn [process_items].
  destruct (can_print os (PROCESSING_ ++ key)); cbn [negb]; [|by exists []].
  destruct (startswith ANSWER_ key); [|by exists ws].
  destruct value as [v|]; [|by exists []].
  cbv zeta.
  destruct (match dirname _ with [] => true | _ => _ end); [by exists []|].
  destruct (can_open os _); cbn [negb]; [|by exists []].
  destruct (can_encode os _); cbn [negb]; [|by eexists [(_, _)]].
  destruct (can_print os _); cbn [negb]; [|by eexists [(_, _)]].
  eexists ((_, _) :: ws). intros out. by rewrite IH.
Qed.

(** One answer: the output files stay as they were, or the file of the
    answer is written, with the code or with nothing. *)
Lemma process_items_one (root file key v : str) (out : fs) :
  startswith ANSWER_ key = true ->
  let code := answer_code unicode_alnum v in
  let path :=
    output_path_of folder_path output_folder root
      (filename_of (extract_module_name unicode_alnum code) key file) in
  let after := items_of root file [(key, JStr v)] out in
  (can_print os (PROCESSING_ ++ key) = true ->
   dirname path <> [] ->
   can_makedirs os (dirname path) = true ->
   can_open os path = true ->
   can_encode os code = true ->
   after = <[path := code]> out)
  /\ (after = out \/ after = <[path := code]> out
      \/ after = <[path := []]> out).
Proof.
  intros Hkey code path after. subst after. cbn [process_items].
  rewrite Hkey. fold code. fold path. split.
  - intros -> Hdir -> -> ->. cbn [negb].
    destruct (dirname path); [done|]. by destruct (can_print os _).
  - destruct (can_print os (PROCESSING_ ++ key)); cbn [negb]; [|by left].
    destruct (match dirname path with [] => true | _ => _ end); [by left|].
    destruct (can_open os path); cbn [negb]; [|by left].
    destruct (can_encode os code); cbn [negb]; [|by right; right].
    right; left. by destruct (can_print os _).
Qed.

Lemma process_file_writes (root : str) (f : str * json_doc) :
  exists ws, forall out, file_of root f out = apply_writes ws out.
Proof.
  unfold process_file. destruct (endswith DOT_JSON f.1); [|by exists []].
  destruct f.2 as [| |items]; [by exists []..|].
  apply process_items_writes.
Qed.

Lemma process_json_files_writes (tree : list walk_entry) :
  exists ws, forall out, run_of tree out = apply_writes ws out.
Proof.
  unfold process_json_files. apply foldl_writes. intros e.
  apply foldl_writes. intros f. apply process_file_writes.
Qed.

End Run.

(** ** The claims *)

(** C1. The three patterns are tried in order and every one that is found
    assigns [code]: the extracted code is that of the last strategy that
    finds something, the empty string when none does.  It is not that of
    the first: on [sample_two_blocks] the two differ. *)
Theorem C1_last_match_wins :
  (forall value,
     extract_code unicode_alnum value
     = last_match_wins [strategy_sv unicode_alnum;
                        strategy_fence unicode_alnum;
                        strategy_span unicode_alnum] value)
  /\ extract_code unicode_alnum sample_two_blocks
     <> first_match_wins [strategy_sv unicode_alnum;
                          strategy_fence unicode_alnum;
                          strategy_span unicode_alnum] sample_two_blocks.
Proof.
  split.
  - intros value. unfold extract_code, last_match_wins.
    cbn [omap list_omap].
    destruct (strategy_sv unicode_alnum value),
      (strategy_fence unicode_alnum value),
      (strategy_span unicode_alnum value); reflexivity.
  - vm_compute. discriminate.
Qed.

(** C4. For an answer that is the fenced block
    [```systemverilog\nmodule foo(...endmodule\n```], the code extracted
    starts with [module foo], the module name derived is [foo], and the
    name of the file starts with [foo].  On a machine that prints the
    message of line 33, makes the directory of the file, opens the file and
    encodes the code, the run writes this code in this file under the
    output folder.  On every machine the run leaves the output files as
    they were, or with this code in this file, or with this file empty: no
    other file and no other content is written. *)
Theorem C4_fenced_module_foo
    (os : host) (folder_path output_folder root file key body : str)
    (out : fs) :
  startswith ANSWER_ key = true ->
  contains FENCE body = false ->
  let value := fenced_module FOO body in
  let code := answer_code unicode_alnum value in
  let path :=
    output_path_of folder_path output_folder root
      (filename_of FOO key file) in
  let after :=
    process_items unicode_alnum folder_path output_folder os root file
      [(key, JStr value)] out in
  startswith MODULE_FOO code = true
  /\ answer_module unicode_alnum value = FOO
  /\ startswith FOO (filename_of FOO key file) = true
  /\ (can_print os (PROCESSING_ ++ key) = true ->
      dirname path <> [] ->
      can_makedirs os (dirname path) = true ->
      can_open os path = true ->
      can_encode os code = true ->
      after = <[path := code]> out)
  /\ (after = out \/ after = <[path := code]> out
      \/ after = <[path := []]> out).
Proof.
  intros Hkey Hbody value code path after.
  destruct (fenced_module_extracted FOO body) as (j & Hj & Hcode & Hname);
    [done|by repeat constructor|done|].
  fold value in Hcode, Hname. fold code in Hcode.
  assert (Hmod : extract_module_name unicode_alnum code = FOO) by exact Hname.
  pose proof (process_items_one folder_path output_folder os root file key
                value out Hkey) as Hone.
  cbv zeta in Hone. fold code in Hone. rewrite Hmod in Hone.
  split_and!; [by rewrite Hcode|done|done|apply Hone|apply Hone].
Qed.

(** C8. Extraction is a function of the response tree and of what the
    machine lets it write, and running it a second time over the same tree
    leaves every output file as the first run wrote it. *)
Theorem C8_extraction_idempotent
    (os : host) (folder_path output_folder : str) (tree : list walk_entry)
    (out : fs) :
  process_json_files unicode_alnum folder_path output_folder os tree
    (process_json_files unicode_alnum folder_path output_folder os tree out)
  = process_json_files unicode_alnum folder_path output_folder os tree out.
Proof.
  destruct (process_json_files_writes folder_path output_folder os tree)
    as [ws Hws].
  rewrite !Hws. apply apply_writes_idem.
Qed.

(** C9. For an answer with no triple backtick and no [module] in it, the
    module name derived is the placeholder [unknown_module]. *)
Theorem C9_default_module_name (value : str) :
  contains FENCE value = false ->
  contains MODULE value = false ->
  answer_module unicode_alnum value = UNKNOWN_MODULE.
Proof.
  intros Hf Hm. destruct (strategies_None value Hf Hm) as (H1 & H2 & H3).
  unfold answer_module, answer_code, extract_code. by rewrite H1, H2, H3.
Qed.

(** C10. Where the systemverilog pattern is found the generic fence
    pattern is found too and assigns [code] after it: the chain extracts
    the same code without its first strategy. *)
Theorem C10_sv_strategy_redundant (value : str) :
  (is_Some (search unicode_alnum RE_SV value) ->
   is_Some (search unicode_alnum RE_FENCE value))
  /\ extract_code unicode_alnum value
     = extract_code_without_sv unicode_alnum value.
Proof.
  split; [apply sv_found_fence_found|].
  unfold extract_code, extract_code_without_sv.
  destruct (strategy_fence unicode_alnum value) as [c|] eqn:Ef; [done|].
  destruct (strategy_sv unicode_alnum value) as [c|] eqn:Es; [|done].
  exfalso. unfold strategy_sv, strategy_fence in *.
  destruct (sv_found_fence_found value) as [m Hm].
  - destruct (search unicode_alnum RE_SV value); [by eexists|done].
  - by rewrite Hm in Ef.
Qed.

End Facts.

(** On [sample_two_blocks] the first pattern finds the second block, the
    generic pattern the first block, and the span pattern nothing (the
    module has no parenthesis): the code extracted is that of the generic
    pattern. *)
Example two_blocks_strategies :
  strategy_sv (fun _ => false) sample_two_blocks
    = Some (u "module a; endmodule")
  /\ strategy_fence (fun _ => false) sample_two_blocks = Some (u "x = 1;")
  /\ strategy_span (fun _ => false) sample_two_blocks = None
  /\ extract_code (fun _ => false) sample_two_blocks = u "x = 1;".
Proof. vm_compute. auto. Qed.

Example sample_tree_run :
  process_json_files (fun _ => false) (u "outputs") (u "../code")
    sample_host sample_tree ∅
  = {[ u "../code/i2c/gpt4/foo_code_0_RAGTrue.sv"
       := u "module foo(input a); assign b = a; endmodule" ]}.
Proof. vm_compute. reflexivity. Qed.

(** With an empty output folder and the input folder itself as [root] the
    file has no directory, [os.makedirs('')] raises and nothing is
    written. *)
Example no_directory_no_file :
  process_items (fun _ => false) (u "outputs") [] sample_host
    (u "outputs") sample_file
    [(sample_key, JStr (fenced_module FOO sample_body))] ∅
  = ∅.
Proof. vm_compute. reflexivity. Qed.

(** A code with a surrogate code point is not encoded: the file has been
    opened and stays empty, and the answers after it are left out. *)
Example surrogate_empty_file :
  process_items (fun _ => false) (u "outputs") (u "../code") sample_host
    (u "outputs/i2c/gpt4") sample_file
    [(sample_key, JStr (fenced_module FOO (55296%N :: sample_body)));
     (u "answer_1", JStr (fenced_module FOO sample_body))] ∅
  = {[ u "../code/i2c/gpt4/foo_code_0_RAGTrue.sv" := [] ]}.
Proof. vm_compute. reflexivity. Qed.

Lemma C4_fenced_module_foo_witness :
  startswith MODULE_FOO
    (answer_code (fun _ => false) (fenced_module FOO sample_body)) = true
  /\ answer_module (fun _ => false) (fenced_module FOO sample_body) = FOO
  /\ process_items (fun _ => false) (u "outputs") (u "../code") sample_host
       (u "outputs/i2c/gpt4") sample_file
       [(sample_key, JStr (fenced_module FOO sample_body))] ∅
     = {[ u "../code/i2c/gpt4/foo_code_0_RAGTrue.sv"
          := u "module foo(input a); assign b = a; endmodule" ]}.
Proof.
  destruct (C4_fenced_module_foo (fun _ => false) sample_host
              (u "outputs") (u "../code") (u "outputs/i2c/gpt4")
              sample_file sample_key sample_body ∅)
    as (Hcode & Hname & _ & Hwrite & _); [reflexivity..|].
  split_and!; [exact Hcode|exact Hname|].
  rewrite Hwrite; [vm_compute; reflexivity|reflexivity|
                   vm_compute; discriminate|reflexivity..].
Defined.

Lemma C9_default_module_name_witness :
  answer_module (fun _ => false) sample_plain = UNKNOWN_MODULE.
Proof.
  apply (C9_default_module_name (fun _ => false) sample_plain); reflexivity.
Defined.

Lemma C10_sv_strategy_redundant_witness :
  is_Some (search (fun _ => false) RE_FENCE (fenced_module FOO sample_body)).
Proof.
  apply (C10_sv_strategy_redundant (fun _ => false)
           (fenced_module FOO sample_body)).
  vm_compute. eexists. reflexivity.
Defined.

End ConvertFacts.

(* ================================================================== *)
(** * The prompt dispatcher *)
(* ================================================================== *)

Module PromptFacts.
Import Py PyFacts Prompt.

Lemma u_inj (s1 s2 : string) : u s1 = u s2 -> s1 = s2.
Proof.
  revert s2. induction s1 as [|a s1 IH]; intros [|b s2]; simpl; try done.
  intros [= Hab Hs]. f_equal; [|by apply IH].
  by rewrite <- (ascii_N_embedding a), <- (ascii_N_embedding b), Hab.
Qed.

Lemma prompt_key_inj (i j : nat) : prompt_key i = prompt_key j -> i = j.
Proof.
  unfold prompt_key. intros H%app_inv_head%u_inj. by apply (inj pretty).
Qed.

Lemma answer_key_inj (i j : nat) : answer_key i = answer_key j -> i = j.
Proof.
  unfold answer_key. intros H%app_inv_head%u_inj. by apply (inj pretty).
Qed.

Lemma prompt_key_not_answer (i j : nat) : prompt_key i <> answer_key j.
Proof. unfold prompt_key, answer_key. cbn [u app]. discriminate. Qed.

Lemma expected_keys_S (n : nat) :
  expected_keys (S n) = expected_keys n ++ [prompt_key n; answer_key n].
Proof.
  unfold expected_keys. by rewrite seq_S, flat_map_app.
Qed.

Lemma in_expected_keys (k : str) (n : nat) :
  k ∈ expected_keys n ->
  exists i, i < n /\ (k = prompt_key i \/ k = answer_key i).
Proof.
  unfold expected_keys. rewrite list_elem_of_In, in_flat_map.
  intros (i & Hi%in_seq & Hk). exists i. split; [lia|].
  destruct Hk as [<-|[<-|[]]]; auto.
Qed.

Lemma dict_set_fresh (k v : str) (d : dict) :
  k ∉ dict_keys d -> dict_set k v d = d ++ [(k, v)].
Proof.
  unfold dict_keys. induction d as [|[k' v'] d IH]; [done|].
  cbn [fmap list_fmap fst dict_set app].
  intros [Hne Hnin]%not_elem_of_cons.
  rewrite bool_decide_eq_false_2 by done. by rewrite IH.
Qed.

Lemma dict_keys_app (d1 d2 : dict) :
  dict_keys (d1 ++ d2) = dict_keys d1 ++ dict_keys d2.
Proof. unfold dict_keys. apply fmap_app. Qed.

(** One turn of the loop adds the two keys of its index after those of
    the earlier turns. *)
Lemma keys_after_turn (i : nat) (p a : str) (d : dict) :
  dict_keys d = expected_keys i ->
  dict_keys (dict_set (answer_key i) a (dict_set (prompt_key i) p d))
  = expected_keys (S i).
Proof.
  intros Hd.
  rewrite (dict_set_fresh (prompt_key i)).
  2:{ rewrite Hd. intros (j & Hj & [E|E])%in_expected_keys.
      - apply prompt_key_inj in E. lia.
      - by apply prompt_key_not_answer in E. }
  rewrite dict_set_fresh.
  2:{ rewrite dict_keys_app, Hd. intros [H|H]%elem_of_app.
      - apply in_expected_keys in H as (j & Hj & [E|E]).
        + symmetry in E. by apply prompt_key_not_answer in E.
        + apply answer_key_inj in E. lia.
      - apply list_elem_of_singleton in H. symmetry in H.
        by apply prompt_key_not_answer in H. }
  rewrite !dict_keys_app, Hd, expected_keys_S. by rewrite <- app_assoc.
Qed.

Lemma ask_all_keys (w : world) (b : backend) (prompts : list str) :
  forall i d sent sent' d',
    dict_keys d = expected_keys i ->
    ask_all w b i prompts d sent = (sent', inr d') ->
    dict_keys d' = expected_keys (i + List.length prompts).
Proof.
  induction prompts as [|p prompts IH]; intros i d sent sent' d' Hd; simpl.
  - intros [= _ <-]. by rewrite Nat.add_0_r.
  - destruct (ask w b i p) as [e|a]; [done|]. intros H.
    rewrite Nat.add_succ_r. apply (IH (S i) _ _ _ _ (keys_after_turn i p a d Hd) H).
Qed.

(** The requests of a loop that is not left by an exception: one for each
    prompt, in order. *)
Lemma ask_all_sent (w : world) (b : backend) (prompts : list str) :
  forall i d sent sent' d',
    ask_all w b i prompts d sent = (sent', inr d') ->
    sent' = sent ++ ((fun p => (b, p)) <$> prompts).
Proof.
  induction prompts as [|p prompts IH]; intros i d sent sent' d'; simpl.
  - intros [= <- _]. by rewrite app_nil_r.
  - destruct (ask w b i p) as [e|a]; [done|]. intros H%IH.
    by rewrite H, <- app_assoc.
Qed.

(** In the branches with [except Exception] no request leaves the loop:
    a request that raises gives an answer, the text of the error. *)
Lemma ask_caught (w : world) (b : backend) (i : nat) (p : str) :
  catches_all b = true -> exists a, ask w b i p = inr a.
Proof.
  destruct b; try done; intros _; unfold ask, caught;
    destruct (sdk_call w _ i p); by eexists.
Qed.

Lemma ask_all_caught (w : world) (b : backend) (prompts : list str) :
  catches_all b = true ->
  forall i d sent, exists d',
    ask_all w b i prompts d sent
    = (sent ++ ((fun p => (b, p)) <$> prompts), inr d').
Proof.
  intros Hb. induction prompts as [|p prompts IH]; intros i d sent; simpl.
  - exists d. by rewrite app_nil_r.
  - destruct (ask_caught w b i p Hb) as [a ->].
    destruct (IH (S i) (dict_set (answer_key i) a
                          (dict_set (prompt_key i) p d))
                (sent ++ [(b, p)])) as [d' ->].
    exists d'. by rewrite <- app_assoc.
Qed.

(** What the two other branches turn into an answer: a status other than
    200 in the [alias] branch, an [OpenAIError] in the [gpt] branch. *)
Lemma ask_alias_status (w : world) (i : nat) (p : str)
    (status_code : N) (content : exn + str) (text : str) :
  requests_post w i p = PostReturns status_code content text ->
  status_code <> 200%N ->
  ask w Alias i p
  = inr (u "Error: " ++ u (pretty status_code) ++ u " - " ++ text).
Proof.
  intros E Hne. unfold ask. rewrite E.
  by destruct (N.eqb_spec status_code 200).
Qed.

Lemma ask_openai_error (w : world) (i : nat) (p : str) (e : exn) :
  sdk_call w OpenAI i p = SdkRaises e -> exn_cls e = OpenAIError ->
  ask w OpenAI i p = inr (u "OpenAI Error: " ++ exn_str e).
Proof. intros E Hc. unfold ask. by rewrite E, Hc. Qed.

(** The same failure in a branch with [except Exception]: both prompts
    are sent and each gets the text of the error for an answer. *)
Example gemini_failure_is_stored :
  prompt_gpt world_down sample_prompts (u "gemini-pro")
  = ([(Gemini, u "first prompt"); (Gemini, u "second prompt")],
     inr [(u "prompt_0", u "first prompt");
          (u "answer_0", u "Gemini API Error: Connection refused");
          (u "prompt_1", u "second prompt");
          (u "answer_1", u "Gemini API Error: Connection refused")]).
Proof. vm_compute. reflexivity. Qed.

(** ** The claims *)

(** C2. Not so in the [alias] branch: [requests.post] is called outside
    any [try], and when it raises for the first of two prompts the
    exception leaves [prompt_gpt]; no answer is stored for that prompt and
    the second prompt is never sent. *)
Theorem C2_alias_failure_leaves_the_loop :
  prompt_gpt world_down sample_prompts (u "alias-code")
  = ([(Alias, u "first prompt")], inl connection_error).
Proof. vm_compute. reflexivity. Qed.

(** C3. The keys of the record [prompt_gpt] returns for [n] prompts are
    [prompt_0], [answer_0], ..., [prompt_(n-1)], [answer_(n-1)]: each key
    once, the indices from zero on without a gap. *)
Theorem C3_record_keys (w : world) (prompts : list str) (model_name : str)
    (sent : trace) (d : dict) :
  prompt_gpt w prompts model_name = (sent, inr d) ->
  dict_keys d = expected_keys (List.length prompts).
Proof.
  unfold prompt_gpt. destruct (select_backend model_name) as [b|]; [|done].
  intros H. by apply (ask_all_keys w b prompts 0 [] [] sent d).
Qed.

Lemma C3_record_keys_witness :
  dict_keys
    (match (prompt_gpt world_echo sample_prompts (u "gpt-4")).2 with
     | inr d => d
     | inl _ => []
     end)
  = expected_keys 2.
Proof.
  apply (C3_record_keys world_echo sample_prompts (u "gpt-4")
           (prompt_gpt world_echo sample_prompts (u "gpt-4")).1).
  vm_compute. reflexivity.
Defined.

(** C7. For a model name with none of the recognized substrings
    [prompt_gpt] raises [ValueError]: no request has been made and no
    record is returned. *)
Theorem C7_unknown_model_fails (w : world) (prompts : list str)
    (model_name : str) :
  Forall (fun sub => contains sub model_name = false) recognized ->
  prompt_gpt w prompts model_name
  = ([], inl (Exn ValueError (u "Unsupported model name: " ++ model_name))).
Proof.
  intros H. unfold recognized in H.
  repeat (apply Forall_cons in H as [? H]).
  unfold prompt_gpt, select_backend.
  repeat match goal with E : contains _ _ = false |- _ => rewrite E; clear E end.
  reflexivity.
Qed.

Lemma C7_unknown_model_fails_witness :
  prompt_gpt world_echo sample_prompts (u "llama-7b")
  = ([], inl (Exn ValueError
                (u "Unsupported model name: " ++ u "llama-7b"))).
Proof.
  apply (C7_unknown_model_fails world_echo sample_prompts (u "llama-7b")).
  repeat constructor.
Defined.

End PromptFacts.

(* ================================================================== *)
(** * The metrics aggregator *)
(* ================================================================== *)

Module RptFacts.
Import Py PyFacts Rpt.

(** ** Parsing *)

(** A field that every line either sets to [v] or leaves alone, and that
    some line sets to [v], is [v] at the end. *)
Lemma parse_lines_field (f : metrics -> str) (v : str) (lines : list str) :
  (forall l m, l ∈ lines ->
               f (parse_line l m) = v \/ f (parse_line l m) = f m) ->
  forall m0,
    f m0 = v \/ (exists l, l ∈ lines /\ forall m, f (parse_line l m) = v) ->
    f (parse_lines lines m0) = v.
Proof.
  unfold parse_lines.
  induction lines as [|l lines IH]; intros Hstep m0 Hhit; cbn [foldl].
  - destruct Hhit as [H|(l & Hl & _)]; [done|]. by apply elem_of_nil in Hl.
  - apply IH.
    + intros l' m Hl'. apply Hstep. by right.
    + destruct Hhit as [H|(l' & Hl' & Hv)].
      * left. destruct (Hstep l m0) as [E|E]; [by left|done|congruence].
      * apply elem_of_cons in Hl' as [->|Hl']; [by left|].
        right. by exists l'.
Qed.

Ltac field_by_computation :=
  intros m E; unfold parse_line; rewrite E; destruct m; vm_compute; auto.

Lemma line_lint (l : str) :
  forall m, strip l = LINE_LINT ->
    Lint (parse_line l m) = PASS /\ Timing (parse_line l m) = Timing m
    /\ Power (parse_line l m) = Power m /\ Area (parse_line l m) = Area m.
Proof. field_by_computation. Qed.

Lemma line_timing (l : str) :
  forall m, strip l = LINE_TIMING ->
    Lint (parse_line l m) = Lint m /\ Timing (parse_line l m) = PASS
    /\ Power (parse_line l m) = Power m /\ Area (parse_line l m) = Area m.
Proof. field_by_computation. Qed.

Lemma line_power (l : str) :
  forall m, strip l = LINE_POWER ->
    Lint (parse_line l m) = Lint m /\ Timing (parse_line l m) = Timing m
    /\ Power (parse_line l m) = u "1.23e-03"
    /\ Area (parse_line l m) = Area m.
Proof. field_by_computation. Qed.

Lemma line_area (l : str) :
  forall m, strip l = LINE_AREA ->
    Lint (parse_line l m) = Lint m /\ Timing (parse_line l m) = Timing m
    /\ Power (parse_line l m) = Power m
    /\ Area (parse_line l m) = u "4567".
Proof. field_by_computation. Qed.

(** A quiet line gives the lint and timing fields a pass or leaves them,
    and leaves the two numbers. *)
Lemma line_quiet (l : str) (m : metrics) :
  quiet (strip l) = true ->
  (Lint (parse_line l m) = PASS \/ Lint (parse_line l m) = Lint m)
  /\ (Timing (parse_line l m) = PASS \/ Timing (parse_line l m) = Timing m)
  /\ Power (parse_line l m) = Power m /\ Area (parse_line l m) = Area m.
Proof.
  unfold quiet. rewrite !andb_true_iff, !negb_true_iff.
  intros (((((H1 & H2) & H3) & H4) & H5) & H6).
  unfold parse_line. cbv zeta. rewrite H1, H2, H3, H4, H5, H6.
  cbn [orb].
  destruct (contains (u "No lint errors") (strip l)),
    (contains (u "No synthesis errors") (strip l)),
    (contains (u "Synthesis errors found") (strip l)),
    (contains (u "Timing Met: YES") (strip l));
    destruct m; cbn; auto.
Qed.

Lemma four_lines_cases (x : str) :
  x ∈ four_lines ->
  x = LINE_LINT \/ x = LINE_TIMING \/ x = LINE_POWER \/ x = LINE_AREA.
Proof.
  unfold four_lines. rewrite !elem_of_cons, elem_of_nil. tauto.
Qed.

(** ** The summary *)

Lemma str_compare_eq (a b : str) : str_compare a b = Eq -> a = b.
Proof.
  revert b. induction a as [|x a IH]; intros [|y b]; simpl; try done.
  destruct (N.compare_spec x y) as [->| |]; try done.
  intros H. f_equal. by apply IH.
Qed.

Lemma key_compare_eq (k1 k2 : str * str * str) :
  key_compare k1 k2 = Eq -> k1 = k2.
Proof.
  destruct k1 as [[a1 b1] c1], k2 as [[a2 b2] c2]. unfold key_compare.
  cbn [fst snd].
  destruct (str_compare a1 a2) eqn:Ea; try done.
  destruct (str_compare b1 b2) eqn:Eb; try done.
  intros Ec. by rewrite (str_compare_eq _ _ Ea), (str_compare_eq _ _ Eb),
    (str_compare_eq _ _ Ec).
Qed.

Lemma elem_of_insert_key (k k' : str * str * str) ks :
  k = k' \/ k ∈ ks -> k ∈ insert_key k' ks.
Proof.
  induction ks as [|h ks IH]; cbn [insert_key].
  - intros [->|H]; [by left|by apply elem_of_nil in H].
  - destruct (key_compare k' h) eqn:E.
    + apply key_compare_eq in E as ->. intros [->|H]; [by left|done].
    + intros [->|H]; [by left|by right].
    + intros [->|[->|H]%elem_of_cons].
      * right. apply IH. by left.
      * by left.
      * right. apply IH. by right.
Qed.

Lemma key_in_group_keys (m : metrics) (all_metrics : list metrics) :
  m ∈ all_metrics -> key_of m ∈ group_keys all_metrics.
Proof.
  unfold group_keys. induction all_metrics as [|m' ms IH]; cbn [foldr].
  - intros H. by apply elem_of_nil in H.
  - intros [->|H]%elem_of_cons; apply elem_of_insert_key; auto.
Qed.

Lemma group_member (k : str * str * str) (m : metrics) all_metrics :
  m ∈ group_of k all_metrics -> m ∈ all_metrics /\ key_of m = k.
Proof.
  unfold group_of. rewrite !list_elem_of_In, filter_In.
  intros [H E]. split; [done|]. by apply bool_decide_eq_true in E.
Qed.

Lemma row_in_summary (row : summary_row) (all_metrics : list metrics) :
  row ∈ grouped_summary all_metrics ->
  row = summarize (row_key row) (group_of (row_key row) all_metrics).
Proof.
  unfold grouped_summary. rewrite list_elem_of_In, in_map_iff.
  intros (k & <- & _). done.
Qed.

(** ** The rates *)

Lemma row_key_in_group_keys (row : summary_row) (all_metrics : list metrics) :
  row ∈ grouped_summary all_metrics -> row_key row ∈ group_keys all_metrics.
Proof.
  unfold grouped_summary. rewrite !list_elem_of_In, in_map_iff.
  intros (k & <- & Hk). done.
Qed.

Lemma insert_key_inv (k k' : str * str * str) ks :
  k ∈ insert_key k' ks -> k = k' \/ k ∈ ks.
Proof.
  induction ks as [|h ks IH]; cbn [insert_key].
  - intros ->%list_elem_of_singleton. by left.
  - destruct (key_compare k' h).
    + by right.
    + intros [->|H]%elem_of_cons; [by left|by right].
    + intros [->|H]%elem_of_cons; [right; by left|].
      destruct (IH H) as [->|?]; [by left|right; by right].
Qed.

Lemma group_keys_inv (k : str * str * str) (all_metrics : list metrics) :
  k ∈ group_keys all_metrics -> exists m, m ∈ all_metrics /\ key_of m = k.
Proof.
  unfold group_keys. induction all_metrics as [|m ms IH]; cbn [foldr].
  - intros H. by apply elem_of_nil in H.
  - intros [->|H]%insert_key_inv.
    + exists m. split; [by left|done].
    + destruct (IH H) as (m' & Hm' & E). exists m'. split; [by right|done].
Qed.

(** No row is made for a key without a record. *)
Lemma group_of_row_nonempty (row : summary_row) (all_metrics : list metrics) :
  row ∈ grouped_summary all_metrics ->
  0 < List.length (group_of (row_key row) all_metrics).
Proof.
  intros Hrow.
  destruct (group_keys_inv _ _ (row_key_in_group_keys _ _ Hrow))
    as (m & Hm & Hk).
  assert (Hin : In m (group_of (row_key row) all_metrics)).
  { unfold group_of. apply filter_In. split; [by apply list_elem_of_In|].
    by apply bool_decide_eq_true. }
  destruct (group_of (row_key row) all_metrics); [done|cbn; lia].
Qed.

Lemma count_lint_pass (g : list metrics) :
  count_true lint_pass g
  = List.length
      (List.filter (fun m => bool_decide (Lint m = PASS \/ Lint m = WARN)) g).
Proof.
  unfold count_true. f_equal. apply filter_ext. intros m. unfold lint_pass.
  apply eq_true_iff_eq.
  by rewrite orb_true_iff, !bool_decide_eq_true.
Qed.

Lemma pass_rate_counts (f : metrics -> bool) (g : list metrics) :
  pass_rate f g = rate_of_counts (count_true f g) (List.length g).
Proof. reflexivity. Qed.

Lemma float_of_nat_N (n : nat) : float_of_nat n = float_of_N (N.of_nat n).
Proof. unfold float_of_nat, float_of_N. by rewrite nat_N_Z. Qed.

Lemma rate_of_counts_N (k n : nat) :
  rate_of_counts k n = rate_of_N (N.of_nat k) (N.of_nat n).
Proof. unfold rate_of_counts, rate_of_N. by rewrite !float_of_nat_N. Qed.

Lemma elem_of_count_up (fuel : nat) (k x : N) :
  (k <= x < k + N.of_nat fuel)%N -> In x (count_up fuel k).
Proof.
  revert k. induction fuel as [|fuel IH]; intros k Hx; [lia|].
  cbn [count_up]. destruct (N.eq_dec k x) as [->|Hne]; [by left|].
  right. apply IH. lia.
Qed.

Lemma rates_checked_bound : rates_checked checked_bound = true.
Proof. vm_compute. reflexivity. Qed.

Lemma tenth_near_nearest (k n m : nat) :
  tenth_near (N.of_nat k) (N.of_nat n) (N.of_nat m) = true ->
  nearest_tenth k n (rate_of_counts k n).
Proof.
  unfold tenth_near. intros [Heq Hle]%andb_true_iff.
  apply FloatAxioms.Leibniz.eqb_spec in Heq. apply Z.leb_le in Hle.
  exists m. rewrite rate_of_counts_N, float_of_nat_N, <- !nat_N_Z. done.
Qed.

Lemma rates_checked_at (bound k n : nat) :
  rates_checked bound = true ->
  0 < n -> k <= n -> n <= bound ->
  rate_checked (N.of_nat k) (N.of_nat n) = true.
Proof.
  unfold rates_checked. intros Hall Hn Hk Hb.
  rewrite forallb_forall in Hall.
  specialize (Hall (N.of_nat n)). rewrite forallb_forall in Hall.
  apply Hall; apply elem_of_count_up; [lia|].
  rewrite Nat2N.id. lia.
Qed.

(** For the groups that have been tested, the rate is a nearest tenth. *)
Lemma rate_nearest (k n : nat) :
  0 < n -> k <= n -> n <= checked_bound ->
  nearest_tenth k n (rate_of_counts k n).
Proof.
  intros Hn Hk Hb.
  pose proof (rates_checked_at checked_bound k n rates_checked_bound
                Hn Hk Hb) as Hc.
  unfold rate_checked in Hc. cbv zeta in Hc.
  apply orb_true_iff in Hc as [Hc|Hc].
  - rewrite <- (N2Nat.id (1000 * _ / _)) in Hc.
    by apply tenth_near_nearest in Hc.
  - rewrite <- (N2Nat.id (1000 * _ / _ + 1)) in Hc.
    by apply tenth_near_nearest in Hc.
Qed.

(** ** The claims *)

(** C5. For a group of two records of one (LLM, RAG, Protocol) key, one
    with a passing lint verdict and one without, the row of the group has
    the lint pass rate 50.0.  In general the row of a key is made from the
    records of this key, which are at least one: its total is their
    number [n], and with [p] the number of those whose verdict is the pass
    or the warn symbol, its rate is [p / n * 100] in binary64, times 10,
    made an integer and divided by 10.  For a group of at most
    [checked_bound] records this is a number of tenths [m / 10] that is
    nearest to [100 p / n]: [m] is at most one half away from
    [1000 p / n]. *)
Theorem C5_lint_pass_rate_half (all_metrics : list metrics)
    (k : str * str * str) (r1 r2 : metrics) :
  group_of k all_metrics = [r1; r2] ->
  lint_pass r1 = negb (lint_pass r2) ->
  exists grouped,
    generate_grouped_summary all_metrics = Some grouped
    /\ (exists row, row ∈ grouped /\ row_key row = k
                     /\ Total_Designs row = 2)
    /\ (forall row, row ∈ grouped -> row_key row = k ->
                     Lint_Pass_Rate row = 50%float)
    /\ (forall row, row ∈ grouped ->
           Lint_Pass_Rate row
           = round1 (bool_mean lint_pass
                       (group_of (row_key row) all_metrics) * 100)%float)
    /\ (forall m, lint_pass m = true <-> Lint m = PASS \/ Lint m = WARN)
    /\ (forall row, row ∈ grouped ->
           let group :=
             List.filter
               (fun m => bool_decide ((LLM m, RAG m, Protocol m) = row_key row))
               all_metrics in
           let n := List.length group in
           let p :=
             List.length
               (List.filter
                  (fun m => bool_decide (Lint m = PASS \/ Lint m = WARN))
                  group) in
           0 < n
           /\ Total_Designs row = n
           /\ Lint_Pass_Rate row
              = (((float_of_nat p / float_of_nat n * 100) * 10
                    + 4503599627370496 - 4503599627370496) / 10)%float
           /\ (n <= checked_bound ->
               exists m : nat,
                 Lint_Pass_Rate row = (float_of_nat m / 10)%float
                 /\ (2 * Z.abs (Z.of_nat m * Z.of_nat n
                                  - 1000 * Z.of_nat p)
                      <= Z.of_nat n)%Z)).
Proof.
  intros Hg Hp. exists (grouped_summary all_metrics). split_and!.
  - destruct all_metrics; [done|reflexivity].
  - exists (summarize k (group_of k all_metrics)). split_and!.
    + unfold grouped_summary. apply list_elem_of_In, in_map_iff. exists k.
      split; [done|]. apply list_elem_of_In.
      destruct (group_member k r1 all_metrics) as [Hin <-].
      { rewrite Hg. by left. }
      by apply key_in_group_keys.
    + done.
    + by rewrite Hg.
  - intros row Hrow Hk. rewrite (row_in_summary row all_metrics Hrow), Hk, Hg.
    cbn [summarize Lint_Pass_Rate]. unfold pass_rate, bool_mean, count_true.
    cbn [List.filter List.length]. rewrite Hp.
    by destruct (lint_pass r2).
  - intros row Hrow. by rewrite (row_in_summary row all_metrics Hrow) at 1.
  - intros m. unfold lint_pass.
    by rewrite orb_true_iff, !bool_decide_eq_true.
  - intros row Hrow group n p.
    assert (Hgroup : group = group_of (row_key row) all_metrics) by done.
    assert (Hn : 0 < n).
    { subst n. rewrite Hgroup. by apply group_of_row_nonempty. }
    assert (Hrate : Lint_Pass_Rate row = rate_of_counts p n).
    { rewrite (row_in_summary row all_metrics Hrow) at 1.
      cbn [summarize Lint_Pass_Rate]. rewrite pass_rate_counts, <- Hgroup.
      subst p n. by rewrite count_lint_pass. }
    split_and!.
    + done.
    + by rewrite (row_in_summary row all_metrics Hrow) at 1.
    + exact Hrate.
    + intros Hbound. rewrite Hrate. apply rate_nearest; [done| |done].
      subst p n. apply filter_length_le.
Qed.

Lemma C5_lint_pass_rate_half_witness :
  exists row,
    Some row = head (default [] (generate_grouped_summary
                                   [sample_record (u "a") PASS;
                                    sample_record (u "b") FAIL]))
    /\ Lint_Pass_Rate row = 50%float.
Proof.
  destruct (C5_lint_pass_rate_half
              [sample_record (u "a") PASS; sample_record (u "b") FAIL]
              (u "gpt4", u "True", u "i2c")
              (sample_record (u "a") PASS) (sample_record (u "b") FAIL))
    as (grouped & Hsome & _ & H50 & _); [reflexivity|reflexivity|].
  injection Hsome as <-. eexists. split; [reflexivity|].
  apply H50; [by left|reflexivity].
Defined.

(** The rates are binary64 numbers: two of three records passing give
    66.7. *)
Example lint_pass_rate_two_of_three :
  Lint_Pass_Rate <$>
    default [] (generate_grouped_summary
                  [sample_record (u "a") PASS; sample_record (u "b") FAIL;
                   sample_record (u "c") WARN])
  = [0x1.0accccccccccdp+6%float].
Proof. reflexivity. Qed.

Example parse_sample_report :
  parse_metrics (Some sample_report) sample_path (u "i2c") (u "gpt4")
  = Metrics (u "foo_code_0_RAGTrue") (u "i2c") (u "gpt4") (u "True")
            PASS NA PASS (u "1.23e-03") (u "4567").
Proof. reflexivity. Qed.

Example parse_missing_report :
  parse_metrics None sample_path (u "i2c") (u "gpt4")
  = Metrics (u "foo_code_0_RAGTrue") (u "i2c") (u "gpt4") (u "True")
            NA NA NA NA NA.
Proof. reflexivity. Qed.

(** C6, as stated: the four lines are among the lines of
    [sample_report_warned], and its lint verdict is not the pass symbol; a
    later line [Lint warnings found] has set the warn symbol. *)
Lemma C6_counterexample :
  Forall (fun l => In l (stripped_lines sample_report_warned)) four_lines
  /\ Lint (parse_metrics (Some sample_report_warned) sample_path
             (u "i2c") (u "gpt4")) <> PASS.
Proof.
  split.
  - vm_compute. repeat constructor; tauto.
  - vm_compute. discriminate.
Qed.

Example parse_sample_report_warned :
  parse_metrics (Some sample_report_warned) sample_path (u "i2c") (u "gpt4")
  = Metrics (u "foo_code_0_RAGTrue") (u "i2c") (u "gpt4") (u "True")
            WARN NA PASS (u "1.23e-03") (u "4567").
Proof. reflexivity. Qed.

(** C6, amended. For a metrics file whose lines include the four lines
    [No lint errors], [Timing Met: YES], [Total Power 1.23e-03] and
    [Chip Area 4567 µm²], and whose other lines are quiet, [parse_metrics]
    returns a record with the pass symbol for Lint and Timing, the string
    [1.23e-03] for the power and [4567] for the area. *)
Theorem C6_four_lines_parsed (content metrics_path protocol llm : str) :
  (forall l, l ∈ four_lines -> l ∈ stripped_lines content) ->
  (forall l, l ∈ stripped_lines content ->
             l ∈ four_lines \/ quiet l = true) ->
  let m := parse_metrics (Some content) metrics_path protocol llm in
  Lint m = PASS /\ Timing m = PASS
  /\ Power m = u "1.23e-03" /\ Area m = u "4567".
Proof.
  intros Hfour Hrest. cbv zeta. unfold parse_metrics.
  assert (forall x, x ∈ four_lines ->
            exists l, l ∈ file_lines content /\ strip l = x) as Hhas.
  { intros x Hx. apply Hfour in Hx. unfold stripped_lines in Hx.
    apply list_elem_of_fmap in Hx as (l & -> & Hl). by exists l. }
  assert (forall l, l ∈ file_lines content ->
            strip l ∈ four_lines \/ quiet (strip l) = true) as Hall.
  { intros l Hl. apply Hrest. unfold stripped_lines.
    by apply list_elem_of_fmap_2. }
  split_and!.
  - apply parse_lines_field.
    + intros l m Hl. destruct (Hall l Hl) as [Hx|Hq].
      * apply four_lines_cases in Hx as [E|[E|[E|E]]].
        -- left. by apply line_lint.
        -- right. by apply line_timing.
        -- right. by apply line_power.
        -- right. by apply line_area.
      * by apply line_quiet.
    + right. destruct (Hhas LINE_LINT) as (l & Hl & E); [by left|].
      exists l. split; [done|]. intros m. by apply line_lint.
  - apply parse_lines_field.
    + intros l m Hl. destruct (Hall l Hl) as [Hx|Hq].
      * apply four_lines_cases in Hx as [E|[E|[E|E]]].
        -- right. by apply line_lint.
        -- left. by apply line_timing.
        -- right. by apply line_power.
        -- right. by apply line_area.
      * by apply line_quiet.
    + right. destruct (Hhas LINE_TIMING) as (l & Hl & E);
        [right; by left|].
      exists l. split; [done|]. intros m. by apply line_timing.
  - apply parse_lines_field.
    + intros l m Hl. destruct (Hall l Hl) as [Hx|Hq].
      * apply four_lines_cases in Hx as [E|[E|[E|E]]].
        -- right. by apply line_lint.
        -- right. by apply line_timing.
        -- left. by apply line_power.
        -- right. by apply line_area.
      * right. by apply line_quiet.
    + right. destruct (Hhas LINE_POWER) as (l & Hl & E);
        [right; right; by left|].
      exists l. split; [done|]. intros m. by apply line_power.
  - apply parse_lines_field.
    + intros l m Hl. destruct (Hall l Hl) as [Hx|Hq].
      * apply four_lines_cases in Hx as [E|[E|[E|E]]].
        -- right. by apply line_lint.
        -- right. by apply line_timing.
        -- right. by apply line_power.
        -- left. by apply line_area.
      * right. by apply line_quiet.
    + right. destruct (Hhas LINE_AREA) as (l & Hl & E);
        [right; right; right; by left|].
      exists l. split; [done|]. intros m. by apply line_area.
Qed.

Lemma C6_four_lines_parsed_witness :
  let m := parse_metrics (Some sample_report) sample_path (u "i2c")
             (u "gpt4") in
  Lint m = PASS /\ Timing m = PASS
  /\ Power m = u "1.23e-03" /\ Area m = u "4567".
Proof.
  apply (C6_four_lines_parsed sample_report sample_path (u "i2c") (u "gpt4")).
  - intros l Hl. vm_compute. exact Hl.
  - intros l Hl. left. vm_compute in Hl. exact Hl.
Defined.

End RptFacts.
